(** * A shallow embedding of [src/src/services/RecommendationEngine.ts]

    The engine of the Hotel-Recommendation-System: aggregation of raw CSV
    rows into [AggregatedHotel] records, the per-request filter pipeline,
    the fuzzy ranking with its popularity fallback, and the insights.

    Modelling conventions.
    - JavaScript strings are lists of UTF-16 code units ([jstr := list Z]).
    - JavaScript numbers are exact rationals [Q]; [Math.round x] is
      [Qfloor (x + 1/2)].  Where a claim is about NaN (0/0), the number is
      modelled by [JNum], which has a NaN value.
    - The libraries and I/O the engine calls are the fields of an [Env]
      record: [Math.log], [Math.random] (a stream, indexed by the number of
      earlier draws), [JSON.parse] (the values of the parsed object),
      the CSV fetch and parse of [loadHotelData], the Fuse.js match score of
      one document, and the HTTP fetch of [geocode].
    - JavaScript objects live in a heap ([list Obj], a location is an index);
      arrays of hotels are lists of locations.  The object spread
      [{ ...hotel, finalScore }] allocates a fresh object. *)

From Stdlib Require Import ZArith QArith Qround Lqa Lia List Bool Sorted Permutation.
From Stdlib Require Import String Ascii.
From Stdlib Require Import Reals.
From Stdlib Require Lra.
Import ListNotations.

Open Scope Z_scope.

(* ------------------------------------------------------------------ *)
(** ** Strings as lists of UTF-16 code units *)

Definition jstr := list Z.

(** ASCII literals as code-unit lists. *)
Fixpoint js (s : string) : jstr :=
  match s with
  | EmptyString => []
  | String c s' => Z.of_nat (nat_of_ascii c) :: js s'
  end.

Definition jstr_eqb (a b : jstr) : bool :=
  if list_eq_dec Z.eq_dec a b then true else false.

Definition is_empty (s : jstr) : bool :=
  match s with [] => true | _ => false end.

(** [String.prototype.toLowerCase] on one code unit: ASCII and Latin-1
    upper-case letters; other code units are left as they are. *)
Definition lower_unit (c : Z) : Z :=
  if (65 <=? c) && (c <=? 90) then c + 32
  else if (192 <=? c) && (c <=? 222) && negb (c =? 215) then c + 32
  else c.

Definition toLowerCase (s : jstr) : jstr := map lower_unit s.

(** The code units of JavaScript's WhiteSpace and LineTerminator, used by
    [trim] and by the regex class [\s]. *)
Definition is_ws (c : Z) : bool :=
  ((9 <=? c) && (c <=? 13)) || (c =? 32) || (c =? 160) || (c =? 5760)
  || ((8192 <=? c) && (c <=? 8202)) || (c =? 8232) || (c =? 8233)
  || (c =? 8239) || (c =? 8287) || (c =? 12288) || (c =? 65279).

Fixpoint drop_ws (s : jstr) : jstr :=
  match s with
  | c :: s' => if is_ws c then drop_ws s' else s
  | [] => []
  end.

Definition trim (s : jstr) : jstr := rev (drop_ws (rev (drop_ws s))).

Fixpoint starts_with (s p : jstr) : bool :=
  match p, s with
  | [], _ => true
  | c :: p', d :: s' => (c =? d) && starts_with s' p'
  | _ :: _, [] => false
  end.

(** [s.includes(p)]. *)
Fixpoint includes (s p : jstr) : bool :=
  starts_with s p || match s with [] => false | _ :: s' => includes s' p end.

(** [arr.join(sep)]. *)
Fixpoint join (sep : jstr) (l : list jstr) : jstr :=
  match l with
  | [] => []
  | [x] => x
  | x :: l' => x ++ sep ++ join sep l'
  end.

(** [s.split(re)] where [re] is a class of single code units. *)
Fixpoint split_on (d : Z -> bool) (s : jstr) : list jstr :=
  match s with
  | [] => [[]]
  | c :: s' =>
      if d c then [] :: split_on d s'
      else match split_on d s' with
           | w :: ws => (c :: w) :: ws
           | [] => [[c]]
           end
  end.

(** The regex [/[•|]/] of the facilities split ([•] is U+2022). *)
Definition facility_delim (c : Z) : bool := (c =? 8226) || (c =? 124).

Fixpoint mem_jstr (x : jstr) (l : list jstr) : bool :=
  match l with [] => false | y :: l' => jstr_eqb x y || mem_jstr x l' end.

(** [[...new Set(l)]]: first occurrences, in order. *)
Definition set_of_list (l : list jstr) : list jstr :=
  fold_left (fun acc x => if mem_jstr x acc then acc else acc ++ [x]) l [].

(** Code-unit order of the default [Array.prototype.sort]. *)
Fixpoint jstr_ltb (a b : jstr) : bool :=
  match a, b with
  | [], [] => false
  | [], _ :: _ => true
  | _ :: _, [] => false
  | x :: a', y :: b' => (x <? y) || ((x =? y) && jstr_ltb a' b')
  end.

(* ------------------------------------------------------------------ *)
(** ** [Array.prototype.sort] with a comparator

    ECMAScript requires the sort to be stable; for a consistent comparator
    every stable sort returns the same array, so insertion sort is used.
    [before a b] is [compare(a, b) < 0]. *)

Section Sort.
Context {A : Type} (before : A -> A -> bool).

Fixpoint insert_by (x : A) (l : list A) : list A :=
  match l with
  | [] => [x]
  | y :: l' => if before x y then x :: l else y :: insert_by x l'
  end.

Definition sort_by (l : list A) : list A :=
  fold_left (fun acc x => insert_by x acc) l [].
End Sort.

(** [a < b] on numbers. *)
Definition Qlt_bool (a b : Q) : bool := negb (Qle_bool b a).

(** [Math.round] on a finite number. *)
Definition js_round (x : Q) : Z := Qfloor (x + (1 # 2)).

(** A JavaScript number where NaN and the infinities matter. *)
Inductive JNum := JFin (q : Q) | JNaN | JPosInf | JNegInf.

(** [a / b]. *)
Definition js_div (a b : Q) : JNum :=
  if Qeq_bool b 0 then
    (if Qeq_bool a 0 then JNaN else if Qlt_le_dec 0 a then JPosInf else JNegInf)
  else JFin (a / b).

(** [Math.round(x * 10) / 10]. *)
Definition round1 (x : JNum) : JNum :=
  match x with
  | JFin q => JFin (inject_Z (js_round (q * 10)) / 10)
  | other => other
  end.

(* ------------------------------------------------------------------ *)
(** ** Data model *)

Open Scope Q_scope.

Record PlatformRating := { rating : Q; reviews_count : Q }.

(** [HotelData], the CSV row after the numeric coercion of [loadHotelData]
    ([parseFloat(value) || 0]); the columns the engine never reads are left
    out.  An absent column is the empty string.  Numbers are rationals: a
    column reading "Infinity", or a numeral beyond the range of doubles,
    would coerce to an infinite number, which the model leaves out. *)
Module Raw.
Record HotelData := {
  address : jstr;
  city : jstr;
  country : jstr;
  hotel_facilities : jstr;
  hotel_star_rating : jstr;
  latitude : Q;
  longitude : Q;
  property_name : jstr;
  room_type : jstr;
  reviews_from_different_sites : jstr;
  price : Q;
  top_positive_review : jstr;
  top_negative_review : jstr;
  average_rating : Q;
  reviews_summary : jstr }.
End Raw.

Record Coordinates := { lat : Q; lng : Q }.

(** [platformRatings] is kept as the list of the parsed object's values
    ([Object.values]), [None] for a [null] value. *)
Record AggregatedHotel := {
  name : jstr;
  address : jstr;
  city : jstr;
  country : jstr;
  averageScore : Q;
  totalReviews : Q;
  positiveWordCount : Q;
  negativeWordCount : Q;
  tags : list jstr;
  reviews : list jstr;
  confidenceScore : Z;
  priceRange : Q;
  coordinates : Coordinates;
  platformRatings : list (option PlatformRating);
  starRating : option Z;
  roomType : option jstr;
  facilitiesBrief : jstr;
  reviewSummary : option jstr }.

(** The outcome of the fetch and Papa.parse in [loadHotelData]. *)
Inductive LoadOutcome :=
| LoadFailed
| Loaded (rows : list Raw.HotelData).

Inductive FuseKey := KAddress | KCity | KCountry | KTags | KReviews | KName.

Record FuseOptions := { fuse_keys : list (FuseKey * Q); fuse_threshold : Q }.

(** The outcome of [fetch(url)] and [resp.json()] in [geocode]: a network
    error, or a response with its [ok] flag and its body ([None] when the
    body is not JSON), each result item given by its decimal lat/lon. *)
Inductive GeoResponse :=
| GeoNetworkError
| GeoReply (ok : bool) (body : option (list (Q * Q))).

(** The libraries and the I/O the engine relies on. *)
Record Env := {
  log : Q -> Q;                                        (* Math.log *)
  random : nat -> Q;                                   (* Math.random, n-th draw *)
  json_parse : jstr -> option (list (option PlatformRating));  (* JSON.parse *)
  csv : LoadOutcome;                                   (* fetch + Papa.parse *)
  fuse_score : FuseOptions -> jstr -> AggregatedHotel -> option Q;
      (* Fuse.js: the score of one document for a query, None if no match *)
  geo_fetch : jstr -> GeoResponse }.                   (* fetch in geocode *)

(* ------------------------------------------------------------------ *)
(** ** Aggregation ([aggregateHotelData] and its helpers) *)

Section Aggregation.
Context (env : Env).

Fixpoint first_match_at (pats : list jstr) (s : jstr) : option jstr :=
  match pats with
  | [] => None
  | p :: ps =>
      if starts_with (toLowerCase s) (toLowerCase p)
      then Some (firstn (List.length p) s) else first_match_at ps s
  end.

(** [s.match(/p1|p2|.../i)]: the leftmost match, alternatives in order. *)
Fixpoint match_ci (pats : list jstr) (s : jstr) : option jstr :=
  match first_match_at pats s with
  | Some m => Some m
  | None => match s with [] => None | _ :: s' => match_ci pats s' end
  end.

(** [s.replace(/p/i, r)]. *)
Fixpoint replace_ci (p r s : jstr) : jstr :=
  if starts_with (toLowerCase s) (toLowerCase p) then r ++ skipn (List.length p) s
  else match s with [] => [] | c :: s' => c :: replace_ci p r s' end.

Definition cityPatterns : list (list jstr) :=
  [[js "New Delhi"; js "Delhi"]; [js "Mumbai"]; [js "Bangalore"];
   [js "Chennai"]; [js "Kolkata"]; [js "Jaipur"]; [js "Goa"];
   [js "Hyderabad"]; [js "Pune"]; [js "Agra"]].

Definition extractCityFromAddress (addr : jstr) : jstr :=
  let fix go (ps : list (list jstr)) :=
    match ps with
    | [] => js "Delhi"
    | p :: ps' =>
        match match_ci p addr with
        | Some m => replace_ci (js "New Delhi") (js "Delhi") m
        | None => go ps'
        end
    end in
  go cityPatterns.

(** [.replace(/'/g, ...)]: every single quote (39) becomes a double quote (34). *)
Definition repair_quotes (s : jstr) : jstr :=
  map (fun c => if (c =? 39)%Z then 34%Z else c) s.

Definition parsePlatformRatings (row : Raw.HotelData) : list (option PlatformRating) :=
  let raw := trim (Raw.reviews_summary row) in
  if is_empty raw then []
  else match json_parse env raw with
       | Some v => v
       | None =>
           match json_parse env (repair_quotes (Raw.reviews_from_different_sites row)) with
           | Some v => v
           | None => []
           end
       end.

Definition count_of (p : option PlatformRating) : Q :=
  match p with Some p => reviews_count p | None => 0 end.

Definition sumTotalReviews (pr : list (option PlatformRating)) : Q :=
  fold_left (fun s p => s + count_of p) pr 0.

(** [Object.values(platformRatings).filter(Boolean)]. *)
Fixpoint present (pr : list (option PlatformRating)) : list PlatformRating :=
  match pr with
  | [] => []
  | Some p :: pr' => p :: present pr'
  | None :: pr' => present pr'
  end.

Definition computeWeightedAverage (pr : list (option PlatformRating)) : Q :=
  let entries := present pr in
  match entries with
  | [] => 0
  | _ :: _ =>
      let total := fold_left (fun acc p => acc + rating p * reviews_count p) entries 0 in
      let count := fold_left (fun acc p => acc + reviews_count p) entries 0 in
      if negb (Qeq_bool count 0) then total / count
      else fold_left (fun a p => a + rating p) entries 0
           / inject_Z (Z.of_nat (List.length entries))
  end.

(** The tag [Set], in insertion order (before [.slice(0, 10)]). *)
Definition tagSet (facilities : jstr) : list jstr :=
  if is_empty facilities then []
  else set_of_list
         (flat_map (fun t => let tag := trim t in
                             if is_empty tag then [] else [toLowerCase tag])
                   (split_on facility_delim facilities)).

Definition calculateConfidenceScore (avgScore totalReviews positiveWords negativeWords : Q) : Z :=
  let reviewWeight := log env (totalReviews + 1) / 10 in
  let sentimentRatio := positiveWords / (positiveWords + negativeWords + 1) in
  let baseScore := avgScore / 10 in
  Z.min 100 (js_round ((baseScore * 0.5 + reviewWeight * 0.3 + sentimentRatio * 0.2) * 100)).

(** [Math.floor(Math.random() * w) + b], drawing the [r]-th random number. *)
Definition draw (r : nat) (w b : Q) : Q * nat :=
  (inject_Z (Qfloor (random env r * w)) + b, S r).

Definition estimatePriceRange (r : nat) (tags : list jstr) (avgScore : Q) (addr : jstr) : Q * nat :=
  let tagArray := toLowerCase (join (js " ") tags) in
  let addressLower := toLowerCase addr in
  if includes tagArray (js "luxury") || includes tagArray (js "palace")
     || includes tagArray (js "oberoi") || includes tagArray (js "taj")
     || includes addressLower (js "palace") || Qlt_bool 9.0 avgScore
  then draw r 3000 4000
  else if includes tagArray (js "business") || includes tagArray (js "spa")
          || Qlt_bool 8.5 avgScore
  then draw r 1000 2500
  else if Qlt_bool 7.5 avgScore then draw r 1000 1500
  else draw r 500 800.

Definition is_digit (c : Z) : bool := ((48 <=? c) && (c <=? 57))%Z.

(** [parseInt(s.replace(/[^0-9]/g, '')) || undefined]. *)
Definition parseStarRating (s : jstr) : option Z :=
  match filter is_digit s with
  | [] => None
  | ds => let v := fold_left (fun acc d => acc * 10 + (d - 48))%Z ds 0%Z in
          if (v =? 0)%Z then None else Some v
  end.

Definition facilitiesBriefOf (facilities : jstr) : jstr :=
  join (js ", ")
    (firstn 6 (filter (fun s => negb (is_empty s))
                 (map trim (split_on facility_delim facilities)))).

Fixpoint drop_non_ws (s : jstr) : jstr :=
  match s with
  | c :: s' => if is_ws c then s else drop_non_ws s'
  | [] => []
  end.

(** [s.replace(/\s+\S*$/, '')]. *)
Definition strip_last_word (s : jstr) : jstr :=
  match drop_non_ws (rev s) with
  | [] => s
  | r1 => rev (drop_ws r1)
  end.

Definition truncateSentence (text : jstr) : jstr :=
  if (Nat.leb (List.length text) 140)%nat then text
  else strip_last_word (firstn 140 text) ++ [8230%Z].

Definition buildSimpleReviewSummary (pos neg : jstr) : option jstr :=
  let p := trim pos in
  let n := trim neg in
  if is_empty p && is_empty n then None
  else
    let pros := if is_empty p then [] else js "Guests appreciated " ++ truncateSentence p in
    let cons := if is_empty n then [] else js "Some mentioned " ++ truncateSentence n in
    Some (join (js ". ") (filter (fun s => negb (is_empty s)) [pros; cons]) ++ js ".").

Definition cityCoords : list (jstr * Coordinates) :=
  [(js "Delhi", {| lat := 28.6139; lng := 77.2090 |});
   (js "Mumbai", {| lat := 19.0760; lng := 72.8777 |});
   (js "Bangalore", {| lat := 12.9716; lng := 77.5946 |});
   (js "Chennai", {| lat := 13.0827; lng := 80.2707 |});
   (js "Kolkata", {| lat := 22.5726; lng := 88.3639 |});
   (js "Jaipur", {| lat := 26.9124; lng := 75.7873 |});
   (js "Goa", {| lat := 15.2993; lng := 74.1240 |});
   (js "Hyderabad", {| lat := 17.3850; lng := 78.4867 |});
   (js "Pune", {| lat := 18.5204; lng := 73.8567 |});
   (js "Agra", {| lat := 27.1767; lng := 78.0081 |})].

Definition getCoordinatesForCity (c : jstr) : Coordinates :=
  match find (fun e => jstr_eqb (fst e) c) cityCoords with
  | Some (_, xy) => xy
  | None => {| lat := 28.6139; lng := 77.2090 |}
  end.

Definition getCoordinatesForRow (row : Raw.HotelData) (c : jstr) : Coordinates :=
  if negb (Qeq_bool (Raw.latitude row) 0) && negb (Qeq_bool (Raw.longitude row) 0)
  then {| lat := Raw.latitude row; lng := Raw.longitude row |}
  else getCoordinatesForCity c.

(** The callback of [this.hotelData.map(...)]; [r] counts the random draws
    made so far. *)
Definition aggregateRow (r : nat) (row : Raw.HotelData) : AggregatedHotel * nat :=
  let c := if is_empty (Raw.city row) then extractCityFromAddress (Raw.address row)
           else Raw.city row in
  let pr := parsePlatformRatings row in
  let tr := sumTotalReviews pr in
  let avgScore := if Qeq_bool (Raw.average_rating row) 0
                  then computeWeightedAverage pr else Raw.average_rating row in
  let ts := tagSet (Raw.hotel_facilities row) in
  let rvs := (if is_empty (Raw.top_positive_review row) then []
              else [trim (Raw.top_positive_review row)])
             ++ (if is_empty (Raw.top_negative_review row) then []
                 else [trim (Raw.top_negative_review row)]) in
  let conf := calculateConfidenceScore avgScore tr 1 0 in
  let '(price, r') := if Qlt_bool 0 (Raw.price row) then (Raw.price row, r)
                      else estimatePriceRange r ts avgScore (Raw.address row) in
  ({| name := Raw.property_name row;
      address := Raw.address row;
      city := c;
      country := Raw.country row;
      averageScore := avgScore;
      totalReviews := tr;
      positiveWordCount := 1;
      negativeWordCount := 0;
      tags := firstn 10 ts;
      reviews := rvs;
      confidenceScore := conf;
      priceRange := price;
      coordinates := getCoordinatesForRow row c;
      platformRatings := pr;
      starRating := parseStarRating (Raw.hotel_star_rating row);
      roomType := if is_empty (Raw.room_type row) then None else Some (Raw.room_type row);
      facilitiesBrief := facilitiesBriefOf (Raw.hotel_facilities row);
      reviewSummary := buildSimpleReviewSummary (Raw.top_positive_review row)
                                                (Raw.top_negative_review row) |}, r').

Fixpoint aggregateHotelData (r : nat) (rows : list Raw.HotelData) : list AggregatedHotel * nat :=
  match rows with
  | [] => ([], r)
  | row :: rows' =>
      let '(h, r1) := aggregateRow r row in
      let '(hs, r2) := aggregateHotelData r1 rows' in
      (h :: hs, r2)
  end.

(** [loadHotelData]: a failed fetch or parse leaves [hotelData] empty. *)
Definition loadHotelData : list Raw.HotelData :=
  match csv env with
  | LoadFailed => []
  | Loaded rows => filter (fun d => negb (is_empty (Raw.property_name d))) rows
  end.
End Aggregation.

(* ------------------------------------------------------------------ *)
(** ** Objects, the heap and the engine state *)

(** A hotel object; [o_finalScore] is the [finalScore] property, absent on
    the objects built by [aggregateHotelData]. *)
Record Obj := { o_hotel : AggregatedHotel; o_finalScore : option Z }.

Definition Heap := list Obj.

Definition default_hotel : AggregatedHotel :=
  {| name := []; address := []; city := []; country := []; averageScore := 0;
     totalReviews := 0; positiveWordCount := 0; negativeWordCount := 0;
     tags := []; reviews := []; confidenceScore := 0; priceRange := 0;
     coordinates := {| lat := 0; lng := 0 |}; platformRatings := [];
     starRating := None; roomType := None; facilitiesBrief := [];
     reviewSummary := None |}.

Definition default_obj : Obj := {| o_hotel := default_hotel; o_finalScore := None |}.

Definition deref (h : Heap) (l : nat) : AggregatedHotel := o_hotel (nth l h default_obj).

Definition finalScoreAt (h : Heap) (l : nat) : Z :=
  match o_finalScore (nth l h default_obj) with Some z => z | None => 0%Z end.

(** Allocation of fresh objects, in order; returns their locations. *)
Definition alloc_all (h : Heap) (os : list Obj) : Heap * list nat :=
  (h ++ os, seq (List.length h) (List.length os)).

(** The fields of [class RecommendationEngine]; [rng] counts the
    [Math.random] draws made so far. *)
Record Engine := {
  heap : Heap;
  hotelData : list Raw.HotelData;
  aggregatedHotels : list nat;
  isInitialized : bool;
  rng : nat }.

(** [new RecommendationEngine()]. *)
Definition initial_engine : Engine :=
  {| heap := []; hotelData := []; aggregatedHotels := []; isInitialized := false; rng := 0 |}.

Record Options := {
  priceMin : option Q;
  priceMax : option Q;
  starRatings : option (list Z);
  avgRatingMin : option Q;
  avgRatingMax : option Q;
  area : option jstr;
  extraRequirements : option jstr }.

Record CityStats := { stats_name : jstr; hotelCount : nat; avgRating : JNum }.

Record Insights := {
  totalAnalyzed : nat;
  averageRating : JNum;
  topFeatures : list jstr;
  cityStats : CityStats }.

Record RecommendationResult := { hotels : list nat; insights : Insights }.

(** [Math.min(a, b)]. *)
Definition js_min (a b : Q) : Q := if Qle_bool a b then a else b.

(** [a < b] on reals, the comparator of the distance sort. *)
Definition Rlt_b (a b : R) : bool := if Rlt_dec a b then true else false.

(** [Math.atan2]. *)
Definition atan2 (y x : R) : R :=
  if Rlt_dec 0 x then atan (y / x)
  else if Rlt_dec x 0 then
    (if Rle_dec 0 y then (atan (y / x) + PI)%R else (atan (y / x) - PI)%R)
  else if Rlt_dec 0 y then (PI / 2)%R
  else if Rlt_dec y 0 then (- (PI / 2))%R else 0%R.

Definition toRad (deg : R) : R := (deg * PI / 180)%R.

Definition haversineKm (lat1 lon1 lat2 lon2 : R) : R :=
  let R0 := 6371%R in
  let dLat := toRad (lat2 - lat1) in
  let dLon := toRad (lon2 - lon1) in
  let a := (sin (dLat / 2) ^ 2 + cos (toRad lat1) * cos (toRad lat2) * sin (dLon / 2) ^ 2)%R in
  let c := (2 * atan2 (sqrt a) (sqrt (1 - a)))%R in
  (R0 * c)%R.

Definition areaFuseOptions : FuseOptions :=
  {| fuse_keys := [(KAddress, 0.7); (KCity, 0.2); (KCountry, 0.1)]; fuse_threshold := 0.4 |}.

Definition mainFuseOptions : FuseOptions :=
  {| fuse_keys := [(KTags, 0.4); (KReviews, 0.3); (KName, 0.2); (KAddress, 0.1)];
     fuse_threshold := 0.6 |}.

Definition personaQueries : list (jstr * jstr) :=
  [(js "Family", js "family friendly kids children pool playground safe amenities");
   (js "Business", js "business meeting conference wifi executive professional");
   (js "Luxury", js "luxury premium spa fine dining exceptional service");
   (js "Solo", js "safe secure central location convenient transportation");
   (js "Couple", js "romantic intimate spa dining views peaceful quiet")].

Definition bonusKeywords : list (jstr * list jstr) :=
  [(js "Family", [js "family"; js "kids"; js "children"; js "pool"; js "playground"]);
   (js "Business", [js "business"; js "meeting"; js "conference"; js "executive"; js "wifi"]);
   (js "Luxury", [js "luxury"; js "spa"; js "fine"; js "premium"; js "exceptional"]);
   (js "Solo", [js "safe"; js "secure"; js "central"; js "convenient"; js "transport"]);
   (js "Couple", [js "romantic"; js "intimate"; js "peaceful"; js "quiet"; js "views"])].

(** The properties every object literal inherits from [Object.prototype].
    [table[key]] finds them even where the literal does not define [key],
    and a [Record<string, number>] built from [{}] cannot hold them as
    counts: the lookups of [lookup_persona] and [getCoordinatesForCity]
    and the tag counts of [generateInsights] follow the code for the other
    keys. *)
Definition object_prototype_keys : list jstr :=
  [js "constructor"; js "__proto__"; js "hasOwnProperty"; js "isPrototypeOf";
   js "propertyIsEnumerable"; js "toLocaleString"; js "toString"; js "valueOf";
   js "__defineGetter__"; js "__defineSetter__"; js "__lookupGetter__";
   js "__lookupSetter__"].

(** [table[key] || dflt] on a persona-keyed object literal. *)
Definition lookup_persona {A} (table : list (jstr * A)) (persona : jstr) (dflt : A) : A :=
  match find (fun e => jstr_eqb (fst e) persona) table with
  | Some (_, v) => v
  | None => dflt
  end.

Definition buildSearchQuery (persona : jstr) (preferences : list jstr) : jstr :=
  let baseQuery := lookup_persona personaQueries persona [] in
  let preferencesQuery := join (js " ") preferences in
  trim (baseQuery ++ js " " ++ preferencesQuery).

Definition getPersonaBonus (hotel : AggregatedHotel) (persona : jstr) : Q :=
  let ts := toLowerCase (join (js " ") (tags hotel)) in
  let rs := toLowerCase (join (js " ") (reviews hotel)) in
  let keywords := lookup_persona bonusKeywords persona [] in
  let bonus := fold_left (fun b k => if includes ts k || includes rs k then b + 0.02 else b)
                         keywords 0 in
  js_min bonus 0.1.

(** The key of the [Record<string, number>] of tag counts: array-index
    keys (canonical numerals below 2^32 - 1) come first, in numeric order,
    in [Object.entries]. *)
Definition array_index (s : jstr) : option Z :=
  match s with
  | [] => None
  | [48%Z] => Some 0%Z
  | 48%Z :: _ => None
  | _ => if forallb (is_digit) s then
           let v := fold_left (fun acc d => acc * 10 + (d - 48))%Z s 0%Z in
           if (v <=? 4294967294)%Z then Some v else None
         else None
  end.

Fixpoint bump (k : jstr) (acc : list (jstr * nat)) : list (jstr * nat) :=
  match acc with
  | [] => [(k, 1%nat)]
  | (k', n) :: acc' => if jstr_eqb k k' then (k', S n) :: acc' else (k', n) :: bump k acc'
  end.

Definition object_entries (counts : list (jstr * nat)) : list (jstr * nat) :=
  let idx e := match array_index (fst e) with Some v => v | None => 0%Z end in
  sort_by (fun a b => (idx a <? idx b)%Z)
          (filter (fun e => match array_index (fst e) with Some _ => true | None => false end) counts)
  ++ filter (fun e => match array_index (fst e) with Some _ => false | None => true end) counts.

(* ------------------------------------------------------------------ *)
(** ** The engine's methods *)

Section Methods.
Context (env : Env).

(** [initialize]: load, aggregate once, set the flag. *)
Definition initialize (st : Engine) : Engine :=
  if isInitialized st then st
  else
    let data := loadHotelData env in
    let '(hs, r) := aggregateHotelData env (rng st) data in
    let '(h', locs) := alloc_all (heap st)
                         (map (fun x => {| o_hotel := x; o_finalScore := None |}) hs) in
    {| heap := h'; hotelData := data; aggregatedHotels := locs;
       isInitialized := true; rng := r |}.

(** The [map] object of the city merge, keyed by [`${h.name}|${h.address}`]. *)
Fixpoint dedupByKey (h : Heap) (seen : list jstr) (ls : list nat) : list nat :=
  match ls with
  | [] => []
  | l :: ls' =>
      let key := name (deref h l) ++ js "|" ++ address (deref h l) in
      if mem_jstr key seen then dedupByKey h seen ls'
      else l :: dedupByKey h (key :: seen) ls'
  end.

(** The key [`${h.name}|${h.address}`] of that map. *)
Definition city_key (h : Heap) (l : nat) : jstr := name (deref h l) ++ js "|" ++ address (deref h l).

Definition cityFilter (h : Heap) (all : list nat) (c : jstr) : list nat :=
  if negb (is_empty c) && negb (jstr_eqb c (js "all")) then
    let cityLower := toLowerCase c in
    let byExact := filter (fun l => jstr_eqb (toLowerCase (city (deref h l))) cityLower) all in
    let byAddress := filter (fun l => includes (toLowerCase (address (deref h l))) cityLower) all in
    match dedupByKey h [] (byExact ++ byAddress) with
    | [] => all
    | merged => merged
    end
  else all.

Definition priceFilter (h : Heap) (o : Options) (cands : list nat) : list nat :=
  match priceMin o, priceMax o with
  | Some mn, Some mx =>
      filter (fun l => Qle_bool mn (priceRange (deref h l)) && Qle_bool (priceRange (deref h l)) mx) cands
  | _, _ => cands
  end.

Definition starFilter (h : Heap) (o : Options) (cands : list nat) : list nat :=
  match starRatings o with
  | Some ((_ :: _) as s) =>
      filter (fun l => match starRating (deref h l) with
                       | Some z => negb (z =? 0)%Z && existsb (Z.eqb z) s
                       | None => false
                       end) cands
  | _ => cands
  end.

Definition ratingFilter (h : Heap) (o : Options) (cands : list nat) : list nat :=
  match avgRatingMin o, avgRatingMax o with
  | None, None => cands
  | mn, mx =>
      filter (fun l =>
                let v := averageScore (deref h l) in
                match mn with Some m => negb (Qlt_bool v m) | None => true end
                && match mx with Some m => negb (Qlt_bool m v) | None => true end) cands
  end.

(** [new Fuse(docs, options).search(q)]: the matching documents with their
    scores, best (lowest) score first, ties in document order. *)
Definition fuse_search (o : FuseOptions) (q : jstr) (h : Heap) (docs : list nat) : list (nat * Q) :=
  sort_by (fun a b => Qlt_bool (snd a) (snd b))
    (flat_map (fun l => match fuse_score env o q (deref h l) with
                        | Some s => [(l, s)]
                        | None => []
                        end) docs).

Definition geocode (q : jstr) : option Coordinates :=
  match geo_fetch env q with
  | GeoNetworkError => None
  | GeoReply false _ => None
  | GeoReply true None => None
  | GeoReply true (Some []) => None
  | GeoReply true (Some ((la, lo) :: _)) => Some {| lat := la; lng := lo |}
  end.

Definition distanceFrom (g : Coordinates) (h : Heap) (l : nat) : R :=
  haversineKm (Q2R (lat g)) (Q2R (lng g))
              (Q2R (lat (coordinates (deref h l)))) (Q2R (lng (coordinates (deref h l)))).

(** The [if (area && area.trim())] block. *)
Definition areaFilter (h : Heap) (c ar : jstr) (cands : list nat) : list nat :=
  match fuse_search areaFuseOptions (trim ar) h cands with
  | (_ :: _) as areaResults => map fst areaResults
  | [] =>
      match geocode (ar ++ js ", " ++ c) with
      | Some g =>
          map fst (sort_by (fun a b => Rlt_b (snd a) (snd b))
                           (map (fun l => (l, distanceFrom g h l)) cands))
      | None => cands
      end
  end.

Definition applyOptions (h : Heap) (c : jstr) (opts : option Options) (cands : list nat) : list nat :=
  match opts with
  | None => cands
  | Some o =>
      let c3 := ratingFilter h o (starFilter h o (priceFilter h o cands)) in
      match area o with
      | Some ar => if is_empty (trim ar) then c3 else areaFilter h c ar c3
      | None => c3
      end
  end.

(** [candidateHotels] after all the filters. *)
Definition filterCandidates (h : Heap) (all : list nat) (c : jstr) (opts : option Options) : list nat :=
  applyOptions h c opts (cityFilter h all c).

Definition searchQuery (persona : jstr) (preferences : list jstr) (opts : option Options) : jstr :=
  buildSearchQuery persona
    (preferences ++ match opts with
                    | Some o => match extraRequirements o with
                                | Some e => if is_empty e then [] else [e]
                                | None => []
                                end
                    | None => []
                    end).

Definition calculateFinalScore (hotel : AggregatedHotel) (persona : jstr) (searchScore : Q) : Z :=
  let score := 0 in
  let score := score + (averageScore hotel / 10) * 0.4 in
  let score := score + searchScore * 0.3 in
  let reviewConfidence := js_min 1 (log env (totalReviews hotel + 1) / 8) in
  let score := score + reviewConfidence * 0.15 in
  let sentimentRatio := positiveWordCount hotel
                        / (positiveWordCount hotel + negativeWordCount hotel + 1) in
  let score := score + sentimentRatio * 0.15 in
  let score := score + getPersonaBonus hotel persona in
  js_round (score * 100).

Definition popularityScore (hotel : AggregatedHotel) : Z :=
  let reviewConfidence := js_min 1 (log env (totalReviews hotel + 1) / 8) in
  let popularity := (averageScore hotel / 10) * 0.7 + reviewConfidence * 0.3 in
  js_round (popularity * 100).

(** [searchResults.map(result => ({ ...hotel, finalScore }))]. *)
Definition scoreHits (h : Heap) (persona : jstr) (hits : list (nat * Q)) : list Obj :=
  map (fun hit => let hotel := deref h (fst hit) in
                  {| o_hotel := hotel;
                     o_finalScore := Some (calculateFinalScore hotel persona (1 - snd hit)) |})
      hits.

(** The popularity fallback's [candidateHotels.map(...)]. *)
Definition scorePopular (h : Heap) (cands : list nat) : list Obj :=
  map (fun l => {| o_hotel := deref h l; o_finalScore := Some (popularityScore (deref h l)) |})
      cands.

Definition generateInsights (h : Heap) (hs : list nat) (c : jstr) : Insights :=
  let total := List.length hs in
  let sum := fold_left (fun s l => s + averageScore (deref h l)) hs 0 in
  let avg := js_div sum (inject_Z (Z.of_nat total)) in
  let allTags := flat_map (fun l => tags (deref h l)) hs in
  let tagCounts := fold_left (fun acc t => bump t acc) allTags [] in
  let top := firstn 5 (sort_by (fun a b => Nat.ltb (snd b) (snd a)) (object_entries tagCounts)) in
  {| totalAnalyzed := total;
     averageRating := round1 avg;
     topFeatures := map fst top;
     cityStats := {| stats_name := c; hotelCount := total; avgRating := round1 avg |} |}.

(** [scoredHotels] before the sort: the fuzzy hits scored by
    [calculateFinalScore], or, when there is none, every candidate scored
    by popularity. *)
Definition scoredObjects (h : Heap) (cands : list nat) (persona query : jstr) : list Obj :=
  let searchResults := fuse_search mainFuseOptions query h cands in
  match scoreHits h persona searchResults with
  | [] => scorePopular h cands
  | s => s
  end.

(** [scoredHotels.sort((a, b) => b.finalScore - a.finalScore).slice(0, 5)]. *)
Definition topFive (h : Heap) (ls : list nat) : list nat :=
  firstn 5 (sort_by (fun a b => (finalScoreAt h b <? finalScoreAt h a)%Z) ls).

(** The request body of [generateRecommendations], after initialization:
    [all] is [this.aggregatedHotels]. *)
Definition recommend (h : Heap) (all : list nat) (persona c : jstr) (preferences : list jstr)
           (opts : option Options) : RecommendationResult * Heap :=
  let cands := filterCandidates h all c opts in
  let scored := scoredObjects h cands persona (searchQuery persona preferences opts) in
  let '(h', scoredHotels) := alloc_all h scored in
  ({| hotels := topFive h' scoredHotels; insights := generateInsights h cands c |}, h').

Definition generateRecommendations (st : Engine) (persona c : jstr) (preferences : list jstr)
           (opts : option Options) : RecommendationResult * Engine :=
  let st1 := initialize st in
  let '(res, h') := recommend (heap st1) (aggregatedHotels st1) persona c preferences opts in
  (res, {| heap := h'; hotelData := hotelData st1; aggregatedHotels := aggregatedHotels st1;
           isInitialized := isInitialized st1; rng := rng st1 |}).

Definition searchHotelsByCity (st : Engine) (c : jstr) : list nat * Engine :=
  let st1 := initialize st in
  if is_empty c || jstr_eqb c (js "all") then (aggregatedHotels st1, st1)
  else (filter (fun l => jstr_eqb (toLowerCase (city (deref (heap st1) l))) (toLowerCase c))
               (aggregatedHotels st1), st1).

Definition getAvailableCities (st : Engine) : list jstr * Engine :=
  (sort_by jstr_ltb (set_of_list (map (fun l => city (deref (heap st) l)) (aggregatedHotels st))), st).
End Methods.

(** A sequence of [generateRecommendations] calls on one engine. *)
Record Request := {
  req_persona : jstr;
  req_city : jstr;
  req_preferences : list jstr;
  req_options : option Options }.

Definition run_requests (env : Env) (st : Engine) (rs : list Request) : Engine :=
  fold_left (fun st r => snd (generateRecommendations env st (req_persona r) (req_city r)
                                                       (req_preferences r) (req_options r)))
            rs st.

(* ------------------------------------------------------------------ *)
(** ** The spec's formulas, written from its words, to compare with the code *)

Section SpecFormulas.
Context (env : Env).

(** 0.02 per persona keyword found, case-insensitively, in one of the
    hotel's tags or reviews, capped at 0.10. *)
Definition spec_personaBonus (hotel : AggregatedHotel) (persona : jstr) : Q :=
  let keywords := lookup_persona bonusKeywords persona [] in
  let found := filter (fun k => existsb (fun t => includes (toLowerCase t) k)
                                        (tags hotel ++ reviews hotel)) keywords in
  js_min (0.02 * inject_Z (Z.of_nat (List.length found))) 0.1.

Definition spec_reviewVolumeConfidence (hotel : AggregatedHotel) : Q :=
  js_min 1 (log env (totalReviews hotel + 1) / 8).

Definition spec_sentimentRatio (hotel : AggregatedHotel) : Q :=
  positiveWordCount hotel / (positiveWordCount hotel + negativeWordCount hotel + 1).

Definition spec_finalScore (hotel : AggregatedHotel) (persona : jstr) (searchSimilarity : Q) : Z :=
  js_round (100 * (0.4 * (averageScore hotel / 10) + 0.3 * searchSimilarity
                   + 0.15 * spec_reviewVolumeConfidence hotel
                   + 0.15 * spec_sentimentRatio hotel
                   + spec_personaBonus hotel persona)).

Definition spec_popularity (hotel : AggregatedHotel) : Z :=
  js_round (100 * (0.7 * (averageScore hotel / 10) + 0.3 * spec_reviewVolumeConfidence hotel)).
End SpecFormulas.

Definition sumQ {A} (f : A -> Q) (l : list A) : Q := fold_right (fun x acc => f x + acc) 0 l.

(** The review-count-weighted mean of the platform ratings, the unweighted
    mean when all counts are zero, and 0 without platform ratings. *)
Definition spec_weightedMean (pr : list (option PlatformRating)) : Q :=
  let ps := present pr in
  match ps with
  | [] => 0
  | _ :: _ =>
      if forallb (fun p => Qeq_bool (reviews_count p) 0) ps
      then sumQ rating ps / inject_Z (Z.of_nat (List.length ps))
      else sumQ (fun p => rating p * reviews_count p) ps / sumQ reviews_count ps
  end.

(* ------------------------------------------------------------------ *)
(** ** Example inputs *)

(** A CSV row with the given property name, address, city, average rating,
    price and facilities; the other text columns are empty and the
    coordinates 0. *)
Definition ex_row (n addr c : jstr) (avg price : Q) (facilities : jstr) : Raw.HotelData :=
  {| Raw.address := addr; Raw.city := c; Raw.country := js "India";
     Raw.hotel_facilities := facilities; Raw.hotel_star_rating := [];
     Raw.latitude := 0; Raw.longitude := 0; Raw.property_name := n; Raw.room_type := [];
     Raw.reviews_from_different_sites := []; Raw.price := price;
     Raw.top_positive_review := []; Raw.top_negative_review := [];
     Raw.average_rating := avg; Raw.reviews_summary := [] |}.

(** An environment with the given data, JSON parser, Fuse scores and
    geocoder. [Math.random] draws 0. [Math.log] is 0, its value at 1: in
    the examples whose result depends on it no hotel has a review count,
    so it is only taken at [0 + 1]. *)
Definition ex_env (data : LoadOutcome)
           (parse : jstr -> option (list (option PlatformRating)))
           (fuse : FuseOptions -> jstr -> AggregatedHotel -> option Q)
           (geo : jstr -> GeoResponse) : Env :=
  {| log := fun _ => 0; random := fun _ => 0; json_parse := parse; csv := data;
     fuse_score := fuse; geo_fetch := geo |}.

Definition no_json : jstr -> option (list (option PlatformRating)) := fun _ => None.
Definition no_match : FuseOptions -> jstr -> AggregatedHotel -> option Q := fun _ _ _ => None.
Definition no_geo : jstr -> GeoResponse := fun _ => GeoNetworkError.

(** No data, nothing to parse, match or geocode. *)
Definition env_plain : Env := ex_env LoadFailed no_json no_match no_geo.

(** One Delhi hotel with a pool; Fuse scores 0.2 every hotel tagged "pool". *)
Definition env_pool : Env :=
  ex_env (Loaded [ex_row (js "Lotus Inn") (js "Connaught Place, New Delhi") (js "Delhi")
                         8 5000 (js "Pool|WiFi")])
         no_json
         (fun _ _ h => if existsb (jstr_eqb (js "pool")) (tags h) then Some 0.2 else None)
         no_geo.

(** A four-star hotel in "mumbai" (lower case, so not a key of the
    coordinates table) with no coordinates and a blank review summary. *)
Definition row_mumbai : Raw.HotelData :=
  {| Raw.address := js "Marine Drive"; Raw.city := js "mumbai"; Raw.country := js "India";
     Raw.hotel_facilities := js "Spa"; Raw.hotel_star_rating := js "4 Star";
     Raw.latitude := 0; Raw.longitude := 0; Raw.property_name := js "Sea Breeze";
     Raw.room_type := []; Raw.reviews_from_different_sites := []; Raw.price := 3000;
     Raw.top_positive_review := []; Raw.top_negative_review := [];
     Raw.average_rating := 7.5; Raw.reviews_summary := js "   " |}.

(** Options asking for a price between 1000 and 6000 and a rating of at least 7. *)
Definition opts_price : Options :=
  {| priceMin := Some 1000; priceMax := Some 6000; starRatings := None;
     avgRatingMin := Some 7; avgRatingMax := None; area := None; extraRequirements := None |}.

(** Two Jaipur hotels whose name and address joined by "|" give one key. *)
Definition env_pipe : Env :=
  ex_env (Loaded [ex_row (js "A|B") (js "C") (js "Jaipur") 8 5000 [];
                  ex_row (js "A") (js "B|C") (js "Jaipur") 8 5000 []])
         no_json no_match no_geo.

(** Two Kolkata hotels rated 8.1, listed B then A, each with the single tag
    "wifi"; A's address "Wifi Lane" also contains "wifi", B's "Park Street"
    shares no letter with it. [fuse_score] gives A the score [sA] and B
    the score [sB]. *)
Definition row_wifi_B : Raw.HotelData :=
  ex_row (js "B") (js "Park Street") (js "Kolkata") 8.1 5000 (js "Wifi").

Definition row_wifi_A : Raw.HotelData :=
  ex_row (js "A") (js "Wifi Lane") (js "Kolkata") 8.1 5000 (js "Wifi").

Definition env_wifi (sA sB : Q) : Env :=
  ex_env (Loaded [row_wifi_B; row_wifi_A]) no_json
         (fun _ _ h => if jstr_eqb (name h) (js "A") then Some sA
                       else if jstr_eqb (name h) (js "B") then Some sB else None)
         no_geo.

(** A parser giving every review summary the platform ratings 8 (10
    reviews) and 9 (30 reviews), and a [null] platform. *)
Definition env_rated : Env :=
  ex_env LoadFailed
         (fun _ => Some [Some {| rating := 8; reviews_count := 10 |}; None;
                         Some {| rating := 9; reviews_count := 30 |}])
         no_match no_geo.

(** A row with no direct average and a review summary to parse. *)
Definition row_rated : Raw.HotelData :=
  {| Raw.address := js "Baga Beach"; Raw.city := js "Goa"; Raw.country := js "India";
     Raw.hotel_facilities := []; Raw.hotel_star_rating := [];
     Raw.latitude := 0; Raw.longitude := 0; Raw.property_name := js "Sea View";
     Raw.room_type := []; Raw.reviews_from_different_sites := []; Raw.price := 3000;
     Raw.top_positive_review := []; Raw.top_negative_review := [];
     Raw.average_rating := 0; Raw.reviews_summary := js "{booking: 8}" |}.

(** A geocoder resolving every query to one point. *)
Definition env_geo : Env :=
  ex_env LoadFailed no_json no_match (fun _ => GeoReply true (Some [(15.5, 73.8)])).

(* ------------------------------------------------------------------ *)
(** ** Facts about the stable sort *)

Section SortFacts.
Context {A : Type} (before : A -> A -> bool).

Lemma insert_by_perm x l : Permutation (insert_by before x l) (x :: l).
Proof.
  induction l as [|y l IH]; simpl; [auto|].
  destruct (before x y); [auto|].
  eapply perm_trans; [apply perm_skip, IH | apply perm_swap].
Qed.

Lemma sort_fold_perm l acc :
  Permutation (fold_left (fun acc x => insert_by before x acc) l acc) (acc ++ l).
Proof.
  revert acc; induction l as [|x l IH]; intros acc; simpl.
  - rewrite app_nil_r; auto.
  - eapply perm_trans; [apply IH|].
    eapply perm_trans; [apply Permutation_app_tail, insert_by_perm|].
    apply Permutation_middle.
Qed.

Lemma sort_by_perm l : Permutation (sort_by before l) l.
Proof. apply (sort_fold_perm l []). Qed.

Hypothesis before_asym : forall a b, before a b = true -> before b a = false.

(** [a] may precede [b] in a sorted array. *)
Definition not_after (a b : A) : Prop := before b a = false.

Lemma insert_by_sorted x l : Sorted not_after l -> Sorted not_after (insert_by before x l).
Proof.
  induction l as [|y l IH]; intros Hs; simpl.
  - repeat constructor.
  - destruct (before x y) eqn:E.
    + constructor; [exact Hs|]. constructor. unfold not_after. apply before_asym; exact E.
    + inversion Hs as [|? ? Hl Hhd]; subst.
      constructor; [apply IH; exact Hl|].
      destruct l as [|z l]; simpl.
      * constructor. exact E.
      * destruct (before x z); constructor; [exact E|].
        inversion Hhd; assumption.
Qed.

Lemma sort_fold_sorted l acc :
  Sorted not_after acc ->
  Sorted not_after (fold_left (fun acc x => insert_by before x acc) l acc).
Proof.
  revert acc; induction l as [|x l IH]; intros acc Hs; simpl; [exact Hs|].
  apply IH, insert_by_sorted, Hs.
Qed.

Lemma sort_by_sorted l : Sorted not_after (sort_by before l).
Proof. apply sort_fold_sorted. constructor. Qed.
End SortFacts.

Lemma Sorted_map_rel {A B} (R : A -> A -> Prop) (R' : B -> B -> Prop) (f : A -> B) l :
  (forall a b, R a b -> R' (f a) (f b)) -> Sorted R l -> Sorted R' (map f l).
Proof.
  intros HR Hs; induction Hs as [|a l Hs IH Hhd]; simpl; constructor; [exact IH|].
  destruct Hhd; simpl; constructor; apply HR; assumption.
Qed.

(** Stability of the descending sort on an integer key: the elements with
    one key keep their relative order. *)
Section StableDesc.
Context {A : Type} (key : A -> Z).

Definition desc_before (a b : A) : bool := (key b <? key a)%Z.

Lemma desc_before_asym a b : desc_before a b = true -> desc_before b a = false.
Proof. unfold desc_before; intros H; apply Z.ltb_lt in H; apply Z.ltb_ge; lia. Qed.

Lemma not_after_desc a b : not_after desc_before a b <-> (key b <= key a)%Z.
Proof. unfold not_after, desc_before; rewrite Z.ltb_ge; tauto. Qed.

Lemma insert_desc_filter x l k :
  Sorted (not_after desc_before) l ->
  filter (fun y => key y =? k)%Z (insert_by desc_before x l)
  = filter (fun y => key y =? k)%Z l ++ (if (key x =? k)%Z then [x] else []).
Proof.
  induction l as [|y l IH]; intros Hs; simpl.
  - destruct (key x =? k)%Z; reflexivity.
  - destruct (desc_before x y) eqn:E.
    + unfold desc_before in E; apply Z.ltb_lt in E.
      assert (Hall : Forall (fun z => (key z <= key y)%Z) l).
      { apply Sorted_StronglySorted in Hs.
        - inversion Hs as [|? ? _ Hf]; subst.
          eapply Forall_impl; [|exact Hf]. intros z Hz; apply not_after_desc; exact Hz.
        - intros a b c Hab Hbc; apply not_after_desc in Hab, Hbc; apply not_after_desc; lia. }
      simpl. destruct (key x =? k)%Z eqn:Ex; simpl.
      * apply Z.eqb_eq in Ex.
        assert (Hy : (key y =? k)%Z = false) by (apply Z.eqb_neq; lia).
        rewrite Hy.
        assert (Hl : filter (fun z => key z =? k)%Z l = []).
        { clear IH Hs; induction Hall as [|z l Hz _ IHl]; simpl; [reflexivity|].
          assert (Hz' : (key z =? k)%Z = false) by (apply Z.eqb_neq; lia).
          rewrite Hz'; exact IHl. }
        rewrite Hl; reflexivity.
      * rewrite app_nil_r; reflexivity.
    + inversion Hs as [|? ? Hl _]; subst.
      simpl; rewrite (IH Hl); destruct (key y =? k)%Z; reflexivity.
Qed.

Lemma sort_desc_fold_filter l acc k :
  Sorted (not_after desc_before) acc ->
  filter (fun y => key y =? k)%Z (fold_left (fun acc x => insert_by desc_before x acc) l acc)
  = filter (fun y => key y =? k)%Z acc ++ filter (fun y => key y =? k)%Z l.
Proof.
  revert acc; induction l as [|x l IH]; intros acc Hs; simpl.
  - rewrite app_nil_r; reflexivity.
  - rewrite IH by (apply insert_by_sorted; [apply desc_before_asym | exact Hs]).
    rewrite insert_desc_filter by exact Hs.
    rewrite <- app_assoc; destruct (key x =? k)%Z; reflexivity.
Qed.

Lemma sort_desc_stable l k :
  filter (fun y => key y =? k)%Z (sort_by desc_before l) = filter (fun y => key y =? k)%Z l.
Proof. unfold sort_by; rewrite sort_desc_fold_filter by constructor; reflexivity. Qed.
End StableDesc.

(* ------------------------------------------------------------------ *)
(** ** Facts about strings and numbers *)

Lemma js_round_compat x y : x == y -> js_round x = js_round y.
Proof. intros H; unfold js_round; apply Qfloor_comp; rewrite H; reflexivity. Qed.

Lemma js_min_compat a a' b : a == a' -> js_min a b == js_min a' b.
Proof.
  intros H; unfold js_min.
  destruct (Qle_bool a b) eqn:E1, (Qle_bool a' b) eqn:E2; try exact H; try reflexivity.
  - apply Qle_bool_iff in E1.
    assert (a' <= b) by (rewrite <- H; exact E1).
    apply Qle_bool_iff in H0; congruence.
  - apply Qle_bool_iff in E2.
    assert (a <= b) by (rewrite H; exact E2).
    apply Qle_bool_iff in H0; congruence.
Qed.

Lemma lower_app a b : toLowerCase (a ++ b) = toLowerCase a ++ toLowerCase b.
Proof. apply map_app. Qed.

Lemma lower_join sep l :
  toLowerCase (join sep l) = join (toLowerCase sep) (map toLowerCase l).
Proof.
  induction l as [|x l IH]; [reflexivity|].
  destruct l as [|y l]; [reflexivity|].
  change (toLowerCase (x ++ sep ++ join sep (y :: l))
          = toLowerCase x ++ toLowerCase sep ++ join (toLowerCase sep) (map toLowerCase (y :: l))).
  rewrite !lower_app, IH; reflexivity.
Qed.

(** A prefix test does not see past a separator that the pattern lacks. *)
Lemma starts_with_sep a c b k :
  ~ In c k -> starts_with (a ++ c :: b) k = starts_with a k.
Proof.
  revert a; induction k as [|d k IH]; intros a Hc; [destruct a; reflexivity|].
  destruct a as [|x a]; simpl.
  - assert (d <> c) by (intro; apply Hc; left; auto).
    destruct (Z.eqb_spec d c); [contradiction|reflexivity].
  - rewrite IH by (intro; apply Hc; right; auto). reflexivity.
Qed.

Lemma includes_sep a c b k :
  k <> [] -> ~ In c k ->
  includes (a ++ c :: b) k = includes a k || includes b k.
Proof.
  intros Hk Hc; induction a as [|x a IH].
  - destruct k as [|d k]; [contradiction|].
    assert (d <> c) by (intro; apply Hc; left; auto).
    simpl. destruct (Z.eqb_spec d c); [contradiction|]. simpl; reflexivity.
  - change (includes ((x :: a) ++ c :: b) k)
      with (starts_with ((x :: a) ++ c :: b) k || includes (a ++ c :: b) k).
    rewrite IH, (starts_with_sep (x :: a) c b k Hc).
    change (includes (x :: a) k) with (starts_with (x :: a) k || includes a k).
    rewrite !orb_assoc; reflexivity.
Qed.

(** A pattern without a space occurs in the space-joined list exactly when
    it occurs in one of its elements. *)
Lemma includes_join_space l k :
  k <> [] -> ~ In 32%Z k ->
  includes (join (js " ") l) k = existsb (fun t => includes t k) l.
Proof.
  intros Hk Hc; induction l as [|x l IH].
  - destruct k; [contradiction|reflexivity].
  - destruct l as [|y l]; simpl existsb.
    + simpl join; rewrite orb_false_r; reflexivity.
    + change (join (js " ") (x :: y :: l)) with (x ++ 32%Z :: join (js " ") (y :: l)).
      rewrite includes_sep by assumption. rewrite IH. reflexivity.
Qed.

Lemma bonus_fold (P : jstr -> bool) ks b0 :
  fold_left (fun b k => if P k then b + 0.02 else b) ks b0
  == b0 + 0.02 * inject_Z (Z.of_nat (List.length (filter P ks))).
Proof.
  revert b0; induction ks as [|k ks IH]; intros b0; cbn [fold_left filter].
  - simpl; ring.
  - rewrite IH. destruct (P k); cbn [List.length]; [|reflexivity].
    rewrite Nat2Z.inj_succ, <- Z.add_1_r, inject_Z_plus. ring.
Qed.

Lemma existsb_map_comp {A B} (f : B -> bool) (g : A -> B) l :
  existsb f (map g l) = existsb (fun x => f (g x)) l.
Proof. induction l as [|x l IH]; simpl; [reflexivity | rewrite IH; reflexivity]. Qed.

Lemma bonusKeywords_shape persona :
  Forall (fun k => k <> [] /\ ~ In 32%Z k) (lookup_persona bonusKeywords persona []).
Proof.
  assert (Hb : forall e, In e bonusKeywords ->
            forallb (fun k => negb (is_empty k) && negb (existsb (Z.eqb 32) k)) (snd e) = true).
  { intros e He; simpl in He; repeat destruct He as [<-|He]; try reflexivity; contradiction. }
  unfold lookup_persona.
  destruct (find (fun e => jstr_eqb (fst e) persona) bonusKeywords) as [[p v]|] eqn:F;
    [|constructor].
  apply find_some in F as [F _]. apply Hb in F. simpl in F.
  apply Forall_forall; intros k Hk.
  rewrite forallb_forall in F. specialize (F k Hk).
  apply andb_true_iff in F as [F1 F2]. split.
  - destruct k; [discriminate|discriminate].
  - intros Hin. apply negb_true_iff in F2.
    assert (existsb (Z.eqb 32) k = true)
      by (apply existsb_exists; exists 32%Z; split; [exact Hin | apply Z.eqb_refl]).
    congruence.
Qed.

Lemma getPersonaBonus_spec hotel persona :
  getPersonaBonus hotel persona == spec_personaBonus hotel persona.
Proof.
  unfold getPersonaBonus, spec_personaBonus.
  apply js_min_compat. rewrite bonus_fold.
  rewrite !lower_join. change (toLowerCase (js " ")) with (js " ").
  pose proof (bonusKeywords_shape persona) as Hs.
  set (ks := lookup_persona bonusKeywords persona []) in *.
  assert (Hf : filter (fun k => includes (join (js " ") (map toLowerCase (tags hotel))) k
                                || includes (join (js " ") (map toLowerCase (reviews hotel))) k) ks
               = filter (fun k => existsb (fun t => includes (toLowerCase t) k)
                                          (tags hotel ++ reviews hotel)) ks).
  { apply filter_ext_in. intros k Hk.
    rewrite Forall_forall in Hs; destruct (Hs k Hk) as [Hk1 Hk2].
    rewrite !includes_join_space by assumption.
    rewrite existsb_app, !existsb_map_comp. reflexivity. }
  rewrite Hf. ring.
Qed.

Lemma calculateFinalScore_spec env hotel persona s :
  calculateFinalScore env hotel persona s = spec_finalScore env hotel persona s.
Proof.
  unfold calculateFinalScore, spec_finalScore, spec_reviewVolumeConfidence, spec_sentimentRatio.
  apply js_round_compat. rewrite getPersonaBonus_spec. ring.
Qed.

Lemma popularityScore_spec env hotel :
  popularityScore env hotel = spec_popularity env hotel.
Proof.
  unfold popularityScore, spec_popularity, spec_reviewVolumeConfidence.
  apply js_round_compat. ring.
Qed.

(* ------------------------------------------------------------------ *)
(** ** Facts about one request *)

Lemma generateRecommendations_eq env st p c prefs opts :
  generateRecommendations env st p c prefs opts =
  (let st1 := initialize env st in
   let cands := filterCandidates env (heap st1) (aggregatedHotels st1) c opts in
   let scored := scoredObjects env (heap st1) cands p (searchQuery p prefs opts) in
   ({| hotels := topFive (heap st1 ++ scored) (seq (List.length (heap st1)) (List.length scored));
       insights := generateInsights (heap st1) cands c |},
    {| heap := heap st1 ++ scored; hotelData := hotelData st1;
       aggregatedHotels := aggregatedHotels st1; isInitialized := isInitialized st1;
       rng := rng st1 |})).
Proof. reflexivity. Qed.

Definition score_before (h : Heap) : nat -> nat -> bool :=
  fun a b => (finalScoreAt h b <? finalScoreAt h a)%Z.

Lemma in_topFive h ls l : In l (topFive h ls) -> In l ls.
Proof.
  unfold topFive; intros H.
  apply (Permutation_in _ (sort_by_perm (score_before h) ls)).
  rewrite <- (firstn_skipn 5 (sort_by (score_before h) ls)).
  apply in_or_app; left; exact H.
Qed.

Lemma topFive_nonempty h ls : ls <> [] -> topFive h ls <> [].
Proof.
  intros Hne; unfold topFive.
  pose proof (sort_by_perm (score_before h) ls) as Hp.
  change (fun a b => (finalScoreAt h b <? finalScoreAt h a)%Z) with (score_before h).
  destruct (sort_by (score_before h) ls) as [|x s].
  - apply Permutation_nil in Hp; contradiction.
  - simpl; discriminate.
Qed.

Lemma Sorted_firstn {A} (R : A -> A -> Prop) n l : Sorted R l -> Sorted R (firstn n l).
Proof.
  revert l; induction n as [|n IH]; intros l Hs; [constructor|].
  destruct l as [|x l]; [constructor|].
  inversion Hs as [|? ? Hl Hhd]; subst; simpl. constructor; [apply IH; exact Hl|].
  destruct n, l; simpl; constructor. inversion Hhd; assumption.
Qed.

Lemma nth_alloc h os l :
  In l (seq (List.length h) (List.length os)) -> In (nth l (h ++ os) default_obj) os.
Proof.
  intros H; apply in_seq in H as [H1 H2].
  rewrite app_nth2 by lia. apply nth_In; lia.
Qed.

Lemma map_nth_alloc h os :
  map (fun l => nth l (h ++ os) default_obj) (seq (List.length h) (List.length os)) = os.
Proof.
  revert h; induction os as [|o os IH]; intros h; [reflexivity|].
  simpl. rewrite app_nth2, Nat.sub_diag by lia. simpl. f_equal.
  specialize (IH (h ++ [o])). rewrite <- app_assoc in IH.
  rewrite length_app, Nat.add_1_r in IH. exact IH.
Qed.

Lemma hits_scored env h cands persona query :
  fuse_search env mainFuseOptions query h cands <> [] ->
  scoredObjects env h cands persona query
  = scoreHits env h persona (fuse_search env mainFuseOptions query h cands).
Proof.
  unfold scoredObjects; intros Hne.
  destruct (fuse_search env mainFuseOptions query h cands); [contradiction | reflexivity].
Qed.

Lemma nohits_scored env h cands persona query :
  fuse_search env mainFuseOptions query h cands = [] ->
  scoredObjects env h cands persona query = scorePopular env h cands.
Proof. unfold scoredObjects; intros E; rewrite E; reflexivity. Qed.

Lemma initialize_initialized env st : isInitialized (initialize env st) = true.
Proof.
  unfold initialize; destruct (isInitialized st) eqn:E; [exact E|].
  destruct (aggregateHotelData env (rng st) (loadHotelData env)); reflexivity.
Qed.

Lemma initialize_done env st : isInitialized st = true -> initialize env st = st.
Proof. unfold initialize; intros E; rewrite E; reflexivity. Qed.

(* ------------------------------------------------------------------ *)
(** ** Ranking *)

(** C1: every hotel returned as a fuzzy match carries the finalScore
    round(100 × [0.4 × averageScore/10 + 0.3 × searchSimilarity
    + 0.15 × min(1, log(totalReviews+1)/8) + 0.15 × sentimentRatio
    + personaBonus]), where searchSimilarity is 1 minus the Fuse score and
    personaBonus is 0.02 per persona keyword found case-insensitively in one
    of the hotel's tags or reviews, capped at 0.10 (no keyword for an
    unknown persona); the returned record is a copy of the matched hotel. *)
Theorem fuzzy_match_finalScore env st persona c prefs opts :
  let st1 := initialize env st in
  let cands := filterCandidates env (heap st1) (aggregatedHotels st1) c opts in
  let hits := fuse_search env mainFuseOptions (searchQuery persona prefs opts) (heap st1) cands in
  hits <> [] ->
  forall l, In l (hotels (fst (generateRecommendations env st persona c prefs opts))) ->
  exists hit, In hit hits /\
    deref (heap (snd (generateRecommendations env st persona c prefs opts))) l
      = deref (heap st1) (fst hit) /\
    o_finalScore (nth l (heap (snd (generateRecommendations env st persona c prefs opts)))
                      default_obj)
      = Some (spec_finalScore env (deref (heap st1) (fst hit)) persona (1 - snd hit)).
Proof.
  intros st1 cands hits Hne l Hin.
  set (scored := scoredObjects env (heap st1) cands persona (searchQuery persona prefs opts)).
  assert (Hg : hotels (fst (generateRecommendations env st persona c prefs opts))
               = topFive (heap st1 ++ scored) (seq (List.length (heap st1)) (List.length scored))
               /\ heap (snd (generateRecommendations env st persona c prefs opts))
                  = heap st1 ++ scored)
    by (rewrite generateRecommendations_eq; split; reflexivity).
  destruct Hg as [Hg1 Hg2]. rewrite Hg1 in Hin. rewrite Hg2. unfold deref at 1.
  apply in_topFive, nth_alloc in Hin.
  set (o := nth l (heap st1 ++ scored) default_obj) in *.
  unfold scored in Hin. rewrite (hits_scored env (heap st1) cands persona _ Hne) in Hin.
  unfold scoreHits in Hin. apply in_map_iff in Hin as [hit [Eo Hh]].
  exists hit; split; [exact Hh|].
  rewrite <- Eo; cbn [o_hotel o_finalScore]. split; [reflexivity|].
  rewrite calculateFinalScore_spec; reflexivity.
Qed.

(** C5: the popularity fallback is taken exactly when the weighted fuzzy
    search has no hit on the filtered candidates; then every candidate, in
    order, is scored round(100 × [0.7 × averageScore/10
    + 0.3 × min(1, log(totalReviews+1)/8)]); otherwise the scored hotels are
    the fuzzy hits with their fuzzy scores.  The returned hotels are among
    the scored ones, and there is at least one when there are candidates. *)
Theorem popularity_fallback_iff_no_hits env st persona c prefs opts :
  let st1 := initialize env st in
  let cands := filterCandidates env (heap st1) (aggregatedHotels st1) c opts in
  let query := searchQuery persona prefs opts in
  let hits := fuse_search env mainFuseOptions query (heap st1) cands in
  let scored := scoredObjects env (heap st1) cands persona query in
  let res := fst (generateRecommendations env st persona c prefs opts) in
  let st' := snd (generateRecommendations env st persona c prefs opts) in
  (hits = [] ->
   Forall2 (fun o l => o_hotel o = deref (heap st1) l
                       /\ o_finalScore o = Some (spec_popularity env (deref (heap st1) l)))
           scored cands) /\
  (hits <> [] ->
   Forall2 (fun o hit => o_hotel o = deref (heap st1) (fst hit)
                         /\ o_finalScore o
                            = Some (calculateFinalScore env (deref (heap st1) (fst hit)) persona
                                                        (1 - snd hit)))
           scored hits) /\
  (forall l, In l (hotels res) -> In (nth l (heap st') default_obj) scored) /\
  (cands <> [] -> hotels res <> []).
Proof.
  intros st1 cands query hits scored res st'.
  assert (Hres : res = {| hotels := topFive (heap st1 ++ scored)
                                     (seq (List.length (heap st1)) (List.length scored));
                          insights := generateInsights (heap st1) cands c |}
                 /\ heap st' = heap st1 ++ scored)
    by (unfold res, st'; rewrite generateRecommendations_eq; split; reflexivity).
  destruct Hres as [Hres Hh]. rewrite Hres, Hh; cbn [hotels].
  split; [|split; [|split]].
  - intros E. unfold scored; rewrite (nohits_scored _ _ _ _ _ E). unfold scorePopular.
    clear. induction cands as [|l cs IH]; simpl; constructor; [|exact IH].
    split; [reflexivity|]. rewrite popularityScore_spec; reflexivity.
  - intros Hne. unfold scored; rewrite (hits_scored _ _ _ _ _ Hne). fold hits. unfold scoreHits.
    clear. induction hits as [|hit hs IH]; simpl; constructor; [|exact IH].
    split; reflexivity.
  - intros l Hin. apply in_topFive, nth_alloc in Hin. exact Hin.
  - intros Hc. apply topFive_nonempty.
    unfold scored, scoredObjects.
    destruct (scoreHits env (heap st1) persona
                (fuse_search env mainFuseOptions query (heap st1) cands)) as [|o os].
    + unfold scorePopular. destruct cands; [contradiction|]. simpl; discriminate.
    + simpl; discriminate.
Qed.

(** C6 (amended): the returned list has at most 5 hotels, sorted by
    finalScore in descending order; the sort is stable, so hotels with equal
    finalScore keep their order in the scored array [scoredHotels] (the
    fuzzy hits in Fuse's result order, or the candidates in the popularity
    fallback). *)
Theorem topFive_sorted_stable env st persona c prefs opts :
  let st1 := initialize env st in
  let cands := filterCandidates env (heap st1) (aggregatedHotels st1) c opts in
  let scored := scoredObjects env (heap st1) cands persona (searchQuery persona prefs opts) in
  let scoredHotels := seq (List.length (heap st1)) (List.length scored) in
  let res := fst (generateRecommendations env st persona c prefs opts) in
  let h' := heap (snd (generateRecommendations env st persona c prefs opts)) in
  map (fun l => nth l h' default_obj) scoredHotels = scored /\
  (List.length (hotels res) <= 5)%nat /\
  Sorted (fun a b => (finalScoreAt h' b <= finalScoreAt h' a)%Z) (hotels res) /\
  (forall k, exists rest,
      filter (fun l => finalScoreAt h' l =? k)%Z scoredHotels
      = filter (fun l => finalScoreAt h' l =? k)%Z (hotels res) ++ rest).
Proof.
  intros st1 cands scored scoredHotels res h'.
  assert (Hres : hotels res = topFive (heap st1 ++ scored) scoredHotels
                 /\ h' = heap st1 ++ scored)
    by (unfold res, h'; rewrite generateRecommendations_eq; split; reflexivity).
  destruct Hres as [Hres Hh]. rewrite Hres, Hh. unfold topFive.
  change (fun a b => (finalScoreAt (heap st1 ++ scored) b
                      <? finalScoreAt (heap st1 ++ scored) a)%Z)
    with (desc_before (finalScoreAt (heap st1 ++ scored))).
  split; [|split; [|split]].
  - apply map_nth_alloc.
  - apply firstn_le_length.
  - apply Sorted_firstn.
    rewrite <- (map_id (sort_by _ scoredHotels)).
    eapply Sorted_map_rel; [|apply sort_by_sorted, desc_before_asym].
    intros a b Hab; apply not_after_desc in Hab; exact Hab.
  - intros k.
    set (P := fun l => (finalScoreAt (heap st1 ++ scored) l =? k)%Z).
    set (s := sort_by (desc_before (finalScoreAt (heap st1 ++ scored))) scoredHotels).
    exists (filter P (skipn 5 s)).
    rewrite <- filter_app, firstn_skipn. unfold s, P.
    symmetry; apply sort_desc_stable.
Qed.

(* ------------------------------------------------------------------ *)
(** ** The shared collection and the lazy initialization *)

Lemma run_requests_extends env st rs :
  isInitialized st = true ->
  aggregatedHotels (run_requests env st rs) = aggregatedHotels st /\
  isInitialized (run_requests env st rs) = true /\
  exists ext, heap (run_requests env st rs) = heap st ++ ext.
Proof.
  revert st; induction rs as [|r rs IH]; intros st Hi.
  - split; [reflexivity|split; [exact Hi|exists []; symmetry; apply app_nil_r]].
  - set (st2 := snd (generateRecommendations env st (req_persona r) (req_city r)
                                             (req_preferences r) (req_options r))).
    change (run_requests env st (r :: rs)) with (run_requests env st2 rs).
    assert (H2 : aggregatedHotels st2 = aggregatedHotels st /\ isInitialized st2 = true
                 /\ exists ext, heap st2 = heap st ++ ext).
    { unfold st2; rewrite generateRecommendations_eq; cbv zeta; cbn.
      rewrite (initialize_done env st Hi). split; [reflexivity|split; [exact Hi|eexists; reflexivity]]. }
    destruct H2 as [Ha [Hi2 [e He]]].
    destruct (IH _ Hi2) as [IH1 [IH2 [ext IH3]]].
    split; [congruence|split; [exact IH2|]].
    rewrite IH3, He. eexists. rewrite <- app_assoc. reflexivity.
Qed.

(** C9: requests never write the shared collection: after any sequence of
    [generateRecommendations] calls on a new engine, the collection is the
    one [initialize] built, each of its objects is the object aggregation
    allocated, and none carries a finalScore. *)
Theorem shared_collection_unchanged env r rs :
  let st0 := initialize env initial_engine in
  let st' := run_requests env initial_engine (r :: rs) in
  aggregatedHotels st' = aggregatedHotels st0 /\
  forall l, In l (aggregatedHotels st0) ->
    nth_error (heap st') l = nth_error (heap st0) l /\
    o_finalScore (nth l (heap st') default_obj) = None.
Proof.
  intros st0 st'.
  assert (Hi0 : isInitialized st0 = true) by apply initialize_initialized.
  set (st1 := snd (generateRecommendations env initial_engine (req_persona r) (req_city r)
                                           (req_preferences r) (req_options r))).
  assert (Hst : st' = run_requests env st1 rs) by reflexivity.
  assert (H1 : aggregatedHotels st1 = aggregatedHotels st0 /\ isInitialized st1 = true
               /\ exists ext, heap st1 = heap st0 ++ ext).
  { unfold st1; rewrite generateRecommendations_eq; cbv zeta; cbn.
    fold st0. split; [reflexivity|split; [exact Hi0|eexists; reflexivity]]. }
  destruct H1 as [Ha1 [Hi1 [e1 He1]]].
  destruct (run_requests_extends env st1 rs Hi1) as [Ha2 [_ [e2 He2]]].
  rewrite Hst, Ha2, Ha1. split; [reflexivity|].
  (* the collection as [initialize] builds it *)
  assert (Hinit : exists hs, heap st0 = map (fun x => {| o_hotel := x; o_finalScore := None |}) hs
                             /\ aggregatedHotels st0 = seq 0 (List.length hs)).
  { unfold st0, initialize; cbn [isInitialized initial_engine].
    destruct (aggregateHotelData env (rng initial_engine) (loadHotelData env)) as [hs r0].
    exists hs; cbn. rewrite length_map. split; reflexivity. }
  destruct Hinit as [hs [Hh Hl]].
  intros l Hin. rewrite Hl in Hin. apply in_seq in Hin as [_ Hlt]. simpl in Hlt.
  assert (Hlt' : (l < List.length (heap st0))%nat) by (rewrite Hh, length_map; exact Hlt).
  rewrite He2, He1, <- app_assoc.
  split; [apply nth_error_app1; exact Hlt'|].
  rewrite app_nth1 by exact Hlt'.
  assert (Hn : In (nth l (heap st0) default_obj) (heap st0)) by (apply nth_In; exact Hlt').
  rewrite Hh in Hn |- *. apply in_map_iff in Hn as [x [Ex _]]. rewrite <- Ex. reflexivity.
Qed.

(** C10: [getAvailableCities] reads the collection without initializing:
    on a new engine it returns no city and leaves the engine as it is,
    uninitialized, while [generateRecommendations] and [searchHotelsByCity]
    initialize it. *)
Theorem getAvailableCities_no_init env persona c prefs opts c' :
  getAvailableCities initial_engine = ([], initial_engine) /\
  isInitialized initial_engine = false /\
  isInitialized (snd (generateRecommendations env initial_engine persona c prefs opts)) = true /\
  isInitialized (snd (searchHotelsByCity env initial_engine c')) = true.
Proof.
  split; [reflexivity|split; [reflexivity|split]].
  - rewrite generateRecommendations_eq; cbv zeta; cbn [snd isInitialized].
    apply initialize_initialized.
  - unfold searchHotelsByCity.
    destruct (is_empty c' || jstr_eqb c' (js "all")); apply initialize_initialized.
Qed.

(* ------------------------------------------------------------------ *)
(** ** The area stage *)

Lemma Sorted_map_rel_on {A B} (P : A -> Prop) (R : A -> A -> Prop) (R' : B -> B -> Prop)
      (f : A -> B) l :
  (forall a b, P a -> P b -> R a b -> R' (f a) (f b)) ->
  Forall P l -> Sorted R l -> Sorted R' (map f l).
Proof.
  intros HR HP Hs; induction Hs as [|a l Hs IH Hhd]; simpl; constructor.
  - apply IH. inversion HP; assumption.
  - inversion HP as [|? ? Pa Pl]; subst.
    destruct Hhd as [|b l' Hab]; simpl; constructor.
    inversion Pl; subst. apply HR; assumption.
Qed.

Lemma Rlt_b_asym a b : Rlt_b a b = true -> Rlt_b b a = false.
Proof.
  unfold Rlt_b; destruct (Rlt_dec a b) as [H|H]; [|discriminate].
  destruct (Rlt_dec b a) as [H'|]; [|reflexivity].
  exfalso; exact (Rlt_asym _ _ H H').
Qed.

Lemma Rlt_b_false a b : Rlt_b a b = false -> (b <= a)%R.
Proof. unfold Rlt_b; destruct (Rlt_dec a b); [discriminate|]. intros _; apply Rnot_lt_le; assumption. Qed.

(** Sorting the candidates by their distance to [g]. *)
Lemma distance_sort_spec g h cands :
  let s := map fst (sort_by (fun a b => Rlt_b (snd a) (snd b))
                            (map (fun l => (l, distanceFrom g h l)) cands)) in
  Permutation s cands /\
  Sorted (fun a b => (distanceFrom g h a <= distanceFrom g h b)%R) s.
Proof.
  intros s.
  set (before := fun a b : nat * R => Rlt_b (snd a) (snd b)).
  set (ps := map (fun l => (l, distanceFrom g h l)) cands).
  pose proof (sort_by_perm before ps) as Hp.
  split.
  - assert (E : map fst ps = cands)
      by (unfold ps; rewrite map_map; apply List.map_id).
    unfold s. eapply Permutation_trans; [apply Permutation_map; exact Hp|].
    rewrite E; apply Permutation_refl.
  - apply (Sorted_map_rel_on (fun p => snd p = distanceFrom g h (fst p)) (not_after before)).
    + intros [a da] [b db] Ha Hb Hab; simpl in *.
      unfold not_after, before in Hab; simpl in Hab.
      apply Rlt_b_false in Hab. subst; exact Hab.
    + apply Forall_forall; intros p Hin.
      apply (Permutation_in _ Hp) in Hin. unfold ps in Hin.
      apply in_map_iff in Hin as [l [El _]]. subst p; reflexivity.
    + apply sort_by_sorted. intros a b; apply Rlt_b_asym.
Qed.

(* ------------------------------------------------------------------ *)
(** ** The empty collection *)

Lemma areaFilter_nil env h c ar : areaFilter env h c ar [] = [].
Proof.
  unfold areaFilter, fuse_search. simpl.
  destruct (geocode env _); reflexivity.
Qed.

Lemma applyOptions_nil env h c opts : applyOptions env h c opts [] = [].
Proof.
  unfold applyOptions. destruct opts as [o|]; [|reflexivity].
  assert (H3 : ratingFilter h o (starFilter h o (priceFilter h o [])) = []).
  { unfold ratingFilter, starFilter, priceFilter.
    destruct (priceMin o), (priceMax o), (starRatings o) as [[|? ?]|],
             (avgRatingMin o), (avgRatingMax o); reflexivity. }
  rewrite H3. destruct (area o) as [ar|]; [|reflexivity].
  destruct (is_empty (trim ar)); [reflexivity|apply areaFilter_nil].
Qed.

Lemma filterCandidates_nil env c opts : filterCandidates env [] [] c opts = [].
Proof.
  unfold filterCandidates, cityFilter.
  destruct (negb (is_empty c) && negb (jstr_eqb c (js "all"))); apply applyOptions_nil.
Qed.

Lemma initialize_load_failed env :
  csv env = LoadFailed ->
  initialize env initial_engine =
  {| heap := []; hotelData := []; aggregatedHotels := []; isInitialized := true;
     rng := rng initial_engine |}.
Proof.
  intros H. unfold initialize, loadHotelData. rewrite H. reflexivity.
Qed.

(** C7: when the fuzzy area search matches no candidate, the stage geocodes
    ["area, city"]. If this yields a point, the candidates come out as a
    permutation of themselves (none added or removed), ascending by their
    haversine distance to the point; if it yields nothing, the candidates
    are returned unchanged. Geocoding yields nothing, without raising, on a
    network error, a non-OK response, a non-JSON body or an empty result. *)
Theorem area_geocode_fallback env h c ar cands :
  fuse_search env areaFuseOptions (trim ar) h cands = [] ->
  (forall g, geocode env (ar ++ js ", " ++ c) = Some g ->
     Permutation (areaFilter env h c ar cands) cands /\
     Sorted (fun a b => (distanceFrom g h a <= distanceFrom g h b)%R)
            (areaFilter env h c ar cands)) /\
  (geocode env (ar ++ js ", " ++ c) = None -> areaFilter env h c ar cands = cands) /\
  (forall q, (geo_fetch env q = GeoNetworkError \/ (exists b, geo_fetch env q = GeoReply false b)
              \/ geo_fetch env q = GeoReply true None \/ geo_fetch env q = GeoReply true (Some [])) ->
             geocode env q = None).
Proof.
  intros Hnone. split; [|split].
  - intros g Hg. unfold areaFilter. rewrite Hnone, Hg.
    apply distance_sort_spec.
  - intros Hg. unfold areaFilter. rewrite Hnone, Hg. reflexivity.
  - intros q Hq. unfold geocode.
    destruct Hq as [E|[[b E]|[E|E]]]; rewrite E; reflexivity.
Qed.

(** C8: when the dataset fails to load, a request on a new engine returns
    no hotel, and its insights report 0 hotels analysed but an average
    rating of NaN, in the insights and in the city statistics, from the
    division by [totalAnalyzed = 0]. *)
Theorem load_failure_insights_nan env persona c prefs opts :
  csv env = LoadFailed ->
  fst (generateRecommendations env initial_engine persona c prefs opts) =
  {| hotels := [];
     insights := {| totalAnalyzed := 0; averageRating := JNaN; topFeatures := [];
                    cityStats := {| stats_name := c; hotelCount := 0; avgRating := JNaN |} |} |}.
Proof.
  intros H. rewrite generateRecommendations_eq; cbv zeta.
  rewrite (initialize_load_failed env H). cbn [heap aggregatedHotels fst].
  rewrite filterCandidates_nil. reflexivity.
Qed.

(* ------------------------------------------------------------------ *)
(** ** Aggregation facts *)

Lemma aggregateRow_fields env r row :
  let hr := fst (aggregateRow env r row) in
  let pr := parsePlatformRatings env row in
  let avg := if Qeq_bool (Raw.average_rating row) 0
             then computeWeightedAverage pr else Raw.average_rating row in
  averageScore hr = avg /\
  totalReviews hr = sumTotalReviews pr /\
  confidenceScore hr = calculateConfidenceScore env avg (sumTotalReviews pr) 1 0 /\
  priceRange hr = fst (if Qlt_bool 0 (Raw.price row) then (Raw.price row, r)
                       else estimatePriceRange env r (tagSet (Raw.hotel_facilities row)) avg
                                               (Raw.address row)).
Proof.
  unfold aggregateRow. cbv zeta.
  destruct (if Qlt_bool 0 (Raw.price row) then _ else _) as [p r'].
  repeat split; reflexivity.
Qed.

Lemma fold_sumQ {A} (f : A -> Q) l a :
  fold_left (fun acc x => acc + f x) l a == a + sumQ f l.
Proof.
  revert a; induction l as [|x l IH]; intros a; simpl.
  - ring.
  - rewrite IH. ring.
Qed.

Lemma In_present pr p : In p (present pr) -> In (Some p) pr.
Proof.
  induction pr as [|[q|] pr IH]; simpl; [tauto| |].
  - intros [E|H]; [left; congruence|right; auto].
  - intros H; right; auto.
Qed.

Lemma sumQ_nonneg {A} (f : A -> Q) l : (forall x, In x l -> 0 <= f x) -> 0 <= sumQ f l.
Proof.
  induction l as [|x l IH]; intros H; simpl; [apply Qle_refl|].
  assert (0 <= f x) by (apply H; left; reflexivity).
  assert (0 <= sumQ f l) by (apply IH; intros y Hy; apply H; right; exact Hy).
  lra.
Qed.

Lemma sumQ_zero_iff {A} (f : A -> Q) l :
  (forall x, In x l -> 0 <= f x) ->
  (Qeq_bool (sumQ f l) 0 = forallb (fun x => Qeq_bool (f x) 0) l).
Proof.
  induction l as [|x l IH]; intros H; simpl; [reflexivity|].
  assert (Hx : 0 <= f x) by (apply H; left; reflexivity).
  assert (Hl : forall y, In y l -> 0 <= f y) by (intros y Hy; apply H; right; exact Hy).
  pose proof (sumQ_nonneg f l Hl) as Hs.
  rewrite <- (IH Hl).
  destruct (Qeq_bool (f x) 0) eqn:Ex; destruct (Qeq_bool (sumQ f l) 0) eqn:Es; simpl.
  - apply Qeq_bool_iff in Ex, Es. apply Qeq_bool_iff; lra.
  - apply Qeq_bool_iff in Ex. apply Qeq_bool_neq in Es.
    apply Bool.not_true_iff_false; rewrite Qeq_bool_iff; intros Hz; apply Es; lra.
  - apply Qeq_bool_neq in Ex.
    apply Bool.not_true_iff_false; rewrite Qeq_bool_iff; intros Hz; apply Ex; lra.
  - apply Qeq_bool_neq in Ex.
    apply Bool.not_true_iff_false; rewrite Qeq_bool_iff; intros Hz; apply Ex; lra.
Qed.

Lemma sumQ_bound {A} (f g : A -> Q) (k : Q) l :
  (forall x, In x l -> f x <= k * g x) -> sumQ f l <= k * sumQ g l.
Proof.
  induction l as [|x l IH]; intros H; simpl; [lra|].
  assert (f x <= k * g x) by (apply H; left; reflexivity).
  assert (sumQ f l <= k * sumQ g l) by (apply IH; intros y Hy; apply H; right; exact Hy).
  setoid_replace (k * (g x + sumQ g l)) with (k * g x + k * sumQ g l) by ring.
  lra.
Qed.

Lemma Qdiv_between n d : 0 < d -> 0 <= n -> n <= 10 * d -> 0 <= n / d <= 10.
Proof.
  intros Hd H0 H10. split.
  - apply Qle_shift_div_l; [exact Hd|]. lra.
  - apply Qle_shift_div_r; [exact Hd|]. lra.
Qed.

Lemma Qeq_bool_compat a b c : a == b -> Qeq_bool a c = Qeq_bool b c.
Proof.
  intros E. destruct (Qeq_bool b c) eqn:Eb.
  - apply Qeq_bool_iff in Eb. apply Qeq_bool_iff. rewrite E. exact Eb.
  - apply Qeq_bool_neq in Eb. apply Bool.not_true_iff_false. rewrite Qeq_bool_iff.
    intros Ea; apply Eb. rewrite <- E. exact Ea.
Qed.

Lemma sumQ_ones {A} (m : list A) : sumQ (fun _ => 1) m == inject_Z (Z.of_nat (List.length m)).
Proof.
  induction m as [|y m IH]; [reflexivity|].
  unfold sumQ in *; cbn [fold_right]. change (List.length (y :: m)) with (S (List.length m)).
  rewrite IH, Nat2Z.inj_succ, <- Z.add_1_l, inject_Z_plus. reflexivity.
Qed.

(** [computeWeightedAverage] is the weighted mean of the spec when the
    review counts are not negative. *)
Lemma computeWeightedAverage_spec pr :
  (forall p, In (Some p) pr -> 0 <= reviews_count p) ->
  computeWeightedAverage pr == spec_weightedMean pr.
Proof.
  intros Hc. unfold computeWeightedAverage, spec_weightedMean.
  assert (Hc' : forall p, In p (present pr) -> 0 <= reviews_count p)
    by (intros p Hp; apply Hc, In_present, Hp).
  destruct (present pr) as [|p0 ps] eqn:Eps; [reflexivity|].
  set (l := p0 :: ps) in *. cbv zeta.
  pose proof (fold_sumQ (fun p => rating p * reviews_count p) l 0) as HT.
  pose proof (fold_sumQ reviews_count l 0) as HC.
  pose proof (fold_sumQ rating l 0) as HU.
  rewrite Qplus_0_l in HT, HC, HU.
  rewrite (Qeq_bool_compat _ _ 0 HC).
  rewrite <- (sumQ_zero_iff reviews_count _ Hc').
  destruct (Qeq_bool (sumQ reviews_count l) 0); simpl negb; cbv iota.
  - rewrite HU. reflexivity.
  - rewrite HT, HC. reflexivity.
Qed.

(** With ratings in [0,10] and counts not negative, [computeWeightedAverage]
    lies in [0,10]. *)
Lemma computeWeightedAverage_bounds pr :
  (forall p, In (Some p) pr -> 0 <= rating p <= 10 /\ 0 <= reviews_count p) ->
  0 <= computeWeightedAverage pr <= 10.
Proof.
  intros Hp. unfold computeWeightedAverage.
  assert (Hp' : forall p, In p (present pr) -> 0 <= rating p <= 10 /\ 0 <= reviews_count p)
    by (intros p Hin; apply Hp, In_present, Hin).
  destruct (present pr) as [|p0 ps] eqn:Eps; [lra|].
  set (l := p0 :: ps) in *. cbv zeta.
  pose proof (fold_sumQ (fun p => rating p * reviews_count p) l 0) as HT.
  pose proof (fold_sumQ reviews_count l 0) as HC.
  pose proof (fold_sumQ rating l 0) as HU.
  rewrite Qplus_0_l in HT, HC, HU.
  rewrite (Qeq_bool_compat _ _ 0 HC).
  assert (Hcnt : 0 <= sumQ reviews_count l) by (apply sumQ_nonneg; intros x Hx; apply Hp', Hx).
  destruct (Qeq_bool (sumQ reviews_count l) 0) eqn:E; simpl negb; cbv iota.
  - rewrite HU.
    assert (Hlen : 0 < inject_Z (Z.of_nat (List.length l))).
    { change (inject_Z 0 < inject_Z (Z.of_nat (List.length l))).
      rewrite <- Zlt_Qlt. unfold l; cbn [List.length]. lia. }
    apply Qdiv_between; [exact Hlen| |].
    + apply sumQ_nonneg; intros x Hx; apply Hp', Hx.
    + rewrite <- sumQ_ones.
      apply sumQ_bound; intros x Hx; destruct (Hp' x Hx); lra.
  - apply Qeq_bool_neq in E. rewrite HT, HC.
    apply Qdiv_between.
    + apply Qle_lteq in Hcnt as [Hlt|Heq]; [exact Hlt|]. exfalso; apply E; symmetry; exact Heq.
    + apply sumQ_nonneg; intros x Hx; destruct (Hp' x Hx).
      apply Qmult_le_0_compat; lra.
    + apply sumQ_bound; intros x Hx; destruct (Hp' x Hx) as [[H0 H10] Hc].
      assert (0 <= (10 - rating x) * reviews_count x) by (apply Qmult_le_0_compat; lra).
      setoid_replace (rating x * reviews_count x)
        with (10 * reviews_count x - (10 - rating x) * reviews_count x) by ring.
      lra.
Qed.

Lemma draw_bounds env r w b :
  0 <= random env r < 1 -> 0 < w -> b <= fst (draw env r w b) < b + w.
Proof.
  intros [H0 H1] Hw. unfold draw; cbn [fst].
  set (x := random env r * w).
  assert (Hx0 : 0 <= x) by (unfold x; apply Qmult_le_0_compat; lra).
  assert (Hx1 : x < w).
  { unfold x. setoid_replace w with (1 * w) at 2 by ring.
    apply (proj2 (Qmult_lt_r _ _ _ Hw)); exact H1. }
  pose proof (Qfloor_le x) as Hle.
  assert (Hf0 : 0 <= inject_Z (Qfloor x)).
  { change (inject_Z 0 <= inject_Z (Qfloor x)). rewrite <- Zle_Qle.
    change 0%Z with (Qfloor 0). apply Qfloor_resp_le; exact Hx0. }
  lra.
Qed.

Lemma estimatePriceRange_bounds env r ts avg addr :
  0 <= random env r < 1 ->
  let p := fst (estimatePriceRange env r ts avg addr) in
  (4000 <= p < 7000) \/ (2500 <= p < 3500) \/ (1500 <= p < 2500) \/ (800 <= p < 1300).
Proof.
  intros Hr p. unfold p, estimatePriceRange; cbv zeta.
  repeat match goal with |- context[if ?b then _ else _] => destruct b end;
  match goal with |- context[fst (draw env r ?w ?b)] =>
    assert (Hd := draw_bounds env r w b Hr ltac:(lra)) end;
  first [left; lra | right; left; lra | right; right; left; lra | right; right; right; lra].
Qed.

Lemma calculateConfidenceScore_bounds env avg tr :
  (forall x, 1 <= x -> 0 <= log env x) ->
  (calculateConfidenceScore env avg tr 1 0 <= 100)%Z /\
  (0 <= avg -> 0 <= tr -> (0 <= calculateConfidenceScore env avg tr 1 0)%Z).
Proof.
  intros Hlog. unfold calculateConfidenceScore. split; [apply Z.le_min_l|].
  intros Ha Ht. apply Z.min_glb; [lia|].
  unfold js_round. change 0%Z with (Qfloor 0). apply Qfloor_resp_le.
  assert (HL : 0 <= log env (tr + 1)) by (apply Hlog; lra).
  set (L := log env (tr + 1)) in *.
  setoid_replace ((avg / 10 * 0.5 + L / 10 * 0.3 + 1 / (1 + 0 + 1) * 0.2) * 100 + (1 # 2))
    with (5 * avg + 3 * L + (21 # 2)) by field.
  lra.
Qed.

Lemma Qlt_bool_true a b : Qlt_bool a b = true -> a < b.
Proof.
  unfold Qlt_bool. destruct (Qle_bool b a) eqn:E; [discriminate|]. intros _.
  apply Qnot_le_lt. intros H. apply Qle_bool_iff in H. congruence.
Qed.

Lemma Qlt_bool_false a b : Qlt_bool a b = false -> b <= a.
Proof.
  unfold Qlt_bool. destruct (Qle_bool b a) eqn:E; [|discriminate]. intros _.
  apply Qle_bool_iff; exact E.
Qed.

(** C2 (amended): the aggregated averageScore is the row's average_rating,
    taken as is, when that is not 0. When it is 0 (absent) and no review
    count is negative, it is the review-count-weighted mean of the
    platform ratings, the unweighted mean when all counts are 0, and 0
    without platform ratings. It lies in [0,10] when the row's
    average_rating and platform ratings do and no review count is
    negative. *)
Theorem averageScore_source_or_weighted env r row :
  let hr := fst (aggregateRow env r row) in
  (~ Raw.average_rating row == 0 -> averageScore hr = Raw.average_rating row) /\
  (Raw.average_rating row == 0 ->
   (forall p, In (Some p) (parsePlatformRatings env row) -> 0 <= reviews_count p) ->
   averageScore hr == spec_weightedMean (parsePlatformRatings env row)) /\
  (0 <= Raw.average_rating row <= 10 ->
   (forall p, In (Some p) (parsePlatformRatings env row) ->
              0 <= rating p <= 10 /\ 0 <= reviews_count p) ->
   0 <= averageScore hr <= 10).
Proof.
  intros hr.
  pose proof (aggregateRow_fields env r row) as HF; cbv zeta in HF.
  destruct HF as [Ha _]. unfold hr; rewrite Ha.
  destruct (Qeq_bool (Raw.average_rating row) 0) eqn:E.
  - split; [|split].
    + intros Hne. exfalso. apply Hne. apply Qeq_bool_iff; exact E.
    + intros _ Hc. apply computeWeightedAverage_spec. exact Hc.
    + intros _ Hp. apply computeWeightedAverage_bounds; exact Hp.
  - split; [|split].
    + intros _; reflexivity.
    + intros H0. exfalso. exact (Qeq_bool_neq _ _ E H0).
    + intros Havg _. exact Havg.
Qed.

(** C2 counterexample: a row whose average_rating column holds -1 gets
    averageScore -1, and one holding 12 gets 12: the direct average is
    not clamped to [0,10]. *)
Lemma averageScore_unclamped :
  averageScore (fst (aggregateRow env_plain 0
                  (ex_row (js "Star Inn") (js "Ring Road") (js "Delhi") (-1) 5000 []))) = -1 /\
  averageScore (fst (aggregateRow env_plain 0
                  (ex_row (js "Star Inn") (js "Ring Road") (js "Delhi") 12 5000 []))) = 12.
Proof. split; vm_compute; reflexivity. Qed.

(** C3 (amended): with [Math.log] not negative from 1 on and
    [Math.random] in [0,1), the aggregated confidenceScore is an integer at
    most 100 when totalReviews is above -1, so that [Math.log] gets a
    positive argument (at or below -1, which negative review counts can
    give, the code computes [Math.log] of 0 or of a negative number:
    -Infinity or NaN). It is at least 0 when averageScore and totalReviews
    are not negative. The priceRange is positive: the row's price when
    that is positive, otherwise a draw from [4000,7000), [2500,3500),
    [1500,2500) or [800,1300). *)
Theorem confidence_and_price_ranges env r row :
  (forall x, 1 <= x -> 0 <= log env x) ->
  (forall n, 0 <= random env n < 1) ->
  let hr := fst (aggregateRow env r row) in
  (-1 < totalReviews hr -> (confidenceScore hr <= 100)%Z) /\
  (0 <= averageScore hr -> 0 <= totalReviews hr -> (0 <= confidenceScore hr)%Z) /\
  0 < priceRange hr /\
  (0 < Raw.price row -> priceRange hr = Raw.price row) /\
  (Raw.price row <= 0 ->
     (4000 <= priceRange hr < 7000) \/ (2500 <= priceRange hr < 3500) \/
     (1500 <= priceRange hr < 2500) \/ (800 <= priceRange hr < 1300)).
Proof.
  intros Hlog Hrnd hr.
  pose proof (aggregateRow_fields env r row) as HF; cbv zeta in HF.
  destruct HF as [Ha [Ht [Hc Hpr]]]. unfold hr; rewrite Ha, Ht, Hc, Hpr.
  generalize (if Qeq_bool (Raw.average_rating row) 0
              then computeWeightedAverage (parsePlatformRatings env row)
              else Raw.average_rating row) as avg.
  generalize (sumTotalReviews (parsePlatformRatings env row)) as tr.
  intros tr avg.
  destruct (calculateConfidenceScore_bounds env avg tr Hlog) as [C1 C2].
  split; [intros _; exact C1|split; [exact C2|]].
  destruct (Qlt_bool 0 (Raw.price row)) eqn:Ep; cbn [fst].
  - apply Qlt_bool_true in Ep.
    split; [exact Ep|split; [intros _; reflexivity|]].
    intros Hle; exfalso; lra.
  - apply Qlt_bool_false in Ep.
    pose proof (estimatePriceRange_bounds env r (tagSet (Raw.hotel_facilities row)) avg
                                          (Raw.address row) (Hrnd r)) as B.
    cbv zeta in B.
    split; [destruct B as [B|[B|[B|B]]]; lra|split].
    + intros Hlt; exfalso; lra.
    + intros _; exact B.
Qed.

(** C3 counterexample: a priced row whose average_rating column holds -10
    gets confidenceScore round((-0.5 + 0 + 0.1) × 100) = -40: the score has
    no lower clamp. *)
Lemma confidence_negative_example :
  confidenceScore (fst (aggregateRow env_plain 0
                     (ex_row (js "Star Inn") (js "Ring Road") (js "Delhi") (-10) 5000 [])))
  = (-40)%Z.
Proof. vm_compute; reflexivity. Qed.

(** C4: the city filter deduplicates by the string [name ++ "|" ++ address],
    which two different (name, address) pairs can share: of the Jaipur
    hotels ("A|B", "C") and ("A", "B|C"), both matching the city, only the
    first is kept. The filter alone never empties a non-empty collection:
    an empty union falls back to all hotels. *)
Theorem city_key_collision :
  (let st1 := initialize env_pipe initial_engine in
   aggregatedHotels st1 = [0; 1]%nat /\
   map (fun l => (name (deref (heap st1) l), address (deref (heap st1) l),
                  city (deref (heap st1) l))) [0; 1]%nat
   = [(js "A|B", js "C", js "Jaipur"); (js "A", js "B|C", js "Jaipur")] /\
   cityFilter (heap st1) (aggregatedHotels st1) (js "jaipur") = [0%nat]) /\
  (forall h all c, all <> [] -> cityFilter h all c <> []).
Proof.
  split.
  - vm_compute. split; [reflexivity|split; reflexivity].
  - intros h all c Hne. unfold cityFilter.
    destruct (negb (is_empty c) && negb (jstr_eqb c (js "all"))); [|exact Hne].
    destruct (dedupByKey h [] _); [exact Hne|discriminate].
Qed.

Lemma initialize_env_wifi sA sB :
  initialize (env_wifi sA sB) initial_engine = initialize (env_wifi 0 0) initial_engine.
Proof. reflexivity. Qed.

Lemma js_round_between x z :
  inject_Z z - (1 # 2) <= x < inject_Z z + (1 # 2) -> js_round x = z.
Proof.
  intros [H1 H2]. unfold js_round. apply Z.le_antisymm.
  - assert (Hf := Qfloor_le (x + (1 # 2))).
    assert (Hlt : inject_Z (Qfloor (x + (1 # 2))) < inject_Z (z + 1))
      by (rewrite inject_Z_plus; change (inject_Z 1) with 1; lra).
    rewrite <- Zlt_Qlt in Hlt. lia.
  - rewrite <- (Qfloor_Z z) at 1. apply Qfloor_resp_le. lra.
Qed.

(** The request of [ranking_ties_not_candidate_order] at any Fuse scores
    with [0 <= sA < sB <= 0.01]: A comes first and both score 70. *)
Lemma wifi_ties_any_scores sA sB :
  0 <= sA -> sA < sB -> sB <= 1 # 100 ->
  let gR := generateRecommendations (env_wifi sA sB) initial_engine (js "Other") (js "all")
                                    [js "wifi"] None in
  map (fun l => name (deref (heap (snd gR)) l)) (hotels (fst gR)) = [js "A"; js "B"] /\
  map (finalScoreAt (heap (snd gR))) (hotels (fst gR)) = [70%Z; 70%Z].
Proof.
  intros H0 H1 H2. cbv zeta.
  rewrite generateRecommendations_eq. cbv zeta. cbn [fst snd hotels heap].
  rewrite (initialize_env_wifi sA sB).
  set (st0 := initialize (env_wifi 0 0) initial_engine).
  assert (Hc : filterCandidates (env_wifi sA sB) (heap st0) (aggregatedHotels st0) (js "all") None
               = [0; 1]%nat) by (vm_compute; reflexivity).
  assert (Hq : searchQuery (js "Other") [js "wifi"] None = js "wifi") by (vm_compute; reflexivity).
  rewrite Hc, Hq.
  assert (Hf : fuse_search (env_wifi sA sB) mainFuseOptions (js "wifi") (heap st0) [0; 1]%nat
               = [(1%nat, sA); (0%nat, sB)]).
  { unfold fuse_search.
    assert (EB : fuse_score (env_wifi sA sB) mainFuseOptions (js "wifi") (deref (heap st0) 0)
                 = Some sB) by (vm_compute; reflexivity).
    assert (EA : fuse_score (env_wifi sA sB) mainFuseOptions (js "wifi") (deref (heap st0) 1)
                 = Some sA) by (vm_compute; reflexivity).
    cbn [flat_map]. rewrite EB, EA. cbn [app sort_by fold_left insert_by snd].
    assert (L1 : Qlt_bool sA sB = true).
    { unfold Qlt_bool. apply negb_true_iff, Bool.not_true_iff_false.
      rewrite Qle_bool_iff. lra. }
    rewrite L1. reflexivity. }
  unfold scoredObjects. rewrite Hf. cbn [scoreHits map fst snd].
  assert (HS : forall l s, (l = 0 \/ l = 1)%nat -> 0 <= s <= 1 # 100 ->
     calculateFinalScore (env_wifi sA sB) (deref (heap st0) l) (js "Other") (1 - s) = 70%Z).
  { intros l s Hl Hs. unfold calculateFinalScore.
    assert (Ha : averageScore (deref (heap st0) l) = 8.1)
      by (destruct Hl as [->| ->]; vm_compute; reflexivity).
    assert (Ht : totalReviews (deref (heap st0) l) = 0)
      by (destruct Hl as [->| ->]; vm_compute; reflexivity).
    assert (Hp : positiveWordCount (deref (heap st0) l) = 1)
      by (destruct Hl as [->| ->]; vm_compute; reflexivity).
    assert (Hn : negativeWordCount (deref (heap st0) l) = 0)
      by (destruct Hl as [->| ->]; vm_compute; reflexivity).
    assert (Hb : getPersonaBonus (deref (heap st0) l) (js "Other") = 0)
      by (destruct Hl as [->| ->]; vm_compute; reflexivity).
    rewrite Ha, Ht, Hp, Hn, Hb.
    assert (Hm : js_min 1 (log (env_wifi sA sB) (0 + 1) / 8) = 0 / 8) by reflexivity.
    rewrite Hm. apply js_round_between. change (inject_Z 70) with 70.
    setoid_replace ((0 + 8.1 / 10 * 0.4 + (1 - s) * 0.3 + 0 / 8 * 0.15 + 1 / (1 + 0 + 1) * 0.15 + 0)
                    * 100) with ((699 # 10) - 30 * s) by field.
    lra. }
  rewrite (HS 1%nat sA), (HS 0%nat sB) by (auto; lra).
  vm_compute. split; reflexivity.
Qed.

(** C6 counterexample. The candidates (city "all") are B then A; the
    persona "Other" has no base query, so the search query is "wifi".
    Fuse.js (version 6 or later, the API the code uses) scores a document
    by the product, over its matching fields, of
    [score ^ (keyWeight * fieldNorm)], a field score of 0 counting as
    [Number.EPSILON]: both tags "wifi" equal the query (field score 0,
    weight 0.4, norm 1), giving EPSILON^0.4 = 5.48e-7; A's address "wifi
    lane" adds a bitap match at location 0 (field score 0.001, weight
    0.1, norm 0.707), a factor 0.001^0.0707 = 0.614, so A scores 3.36e-7;
    no other field matches. Fuse lists A before B, both score
    round(32.4 + 30 (1 - s) + 7.5) = 70, and the stable sort keeps A
    before B: the tie follows the search results, not the candidate order.
    [wifi_ties_any_scores] gives the same result at every pair of scores
    with [0 <= sA < sB <= 0.01]. *)
Lemma ranking_ties_not_candidate_order :
  let E := env_wifi (336 # 1000000000) (548 # 1000000000) in
  let st1 := initialize E initial_engine in
  let cands := filterCandidates E (heap st1) (aggregatedHotels st1) (js "all") None in
  let gR := generateRecommendations E initial_engine (js "Other") (js "all") [js "wifi"] None in
  map (fun l => name (deref (heap st1) l)) cands = [js "B"; js "A"] /\
  map (fun l => name (deref (heap (snd gR)) l)) (hotels (fst gR)) = [js "A"; js "B"] /\
  map (finalScoreAt (heap (snd gR))) (hotels (fst gR)) = [70%Z; 70%Z].
Proof. vm_compute. split; [reflexivity|split; reflexivity]. Qed.

(* ------------------------------------------------------------------ *)
(** ** The theorems at concrete inputs *)

(** The Delhi pool hotel, searched for a family wanting a pool, is the one
    fuzzy match returned, with the spec's final score. *)
Lemma fuzzy_match_finalScore_witness :
  hotels (fst (generateRecommendations env_pool initial_engine (js "Family") (js "Delhi")
                                       [js "pool"] None)) = [1%nat] /\
  exists hit,
    o_finalScore (nth 1 (heap (snd (generateRecommendations env_pool initial_engine (js "Family")
                                      (js "Delhi") [js "pool"] None))) default_obj)
    = Some (spec_finalScore env_pool (deref (heap (initialize env_pool initial_engine)) (fst hit))
                            (js "Family") (1 - snd hit)).
Proof.
  split; [vm_compute; reflexivity|].
  assert (Hne : fuse_search env_pool mainFuseOptions (searchQuery (js "Family") [js "pool"] None)
                  (heap (initialize env_pool initial_engine))
                  (filterCandidates env_pool (heap (initialize env_pool initial_engine))
                     (aggregatedHotels (initialize env_pool initial_engine)) (js "Delhi") None)
                <> []) by (vm_compute; discriminate).
  assert (Hin : In 1%nat (hotels (fst (generateRecommendations env_pool initial_engine
                                          (js "Family") (js "Delhi") [js "pool"] None))))
    by (vm_compute; left; reflexivity).
  destruct (fuzzy_match_finalScore env_pool initial_engine (js "Family") (js "Delhi")
              [js "pool"] None Hne 1%nat Hin) as [hit [_ [_ H2]]].
  exists hit; exact H2.
Defined.

(** A row with no direct average and the platform ratings 8 (10 reviews)
    and 9 (30 reviews) gets their weighted mean 8.75. *)
Lemma averageScore_source_or_weighted_witness :
  0 <= averageScore (fst (aggregateRow env_rated 0 row_rated)) <= 10 /\
  averageScore (fst (aggregateRow env_rated 0 row_rated))
  == spec_weightedMean (parsePlatformRatings env_rated row_rated).
Proof.
  destruct (averageScore_source_or_weighted env_rated 0 row_rated) as [_ [W B]].
  assert (Hp : forall p, In (Some p) (parsePlatformRatings env_rated row_rated) ->
                         0 <= rating p <= 10 /\ 0 <= reviews_count p).
  { intros p Hin. vm_compute in Hin.
    destruct Hin as [E|[E|[E|[]]]]; try discriminate; injection E as <-;
      repeat split; vm_compute; discriminate. }
  split.
  - apply B; [split; vm_compute; discriminate|exact Hp].
  - apply W; [reflexivity|intros p Hin; apply Hp, Hin].
Defined.

(** A row rated 8 with no price: its confidence is in [0,100] and its
    price a positive draw from a bracket. *)
Lemma confidence_and_price_ranges_witness :
  let hr := fst (aggregateRow env_plain 0
                   (ex_row (js "Star Inn") (js "Ring Road") (js "Delhi") 8 0 [])) in
  (0 <= confidenceScore hr <= 100)%Z /\ 0 < priceRange hr /\
  ((4000 <= priceRange hr < 7000) \/ (2500 <= priceRange hr < 3500) \/
   (1500 <= priceRange hr < 2500) \/ (800 <= priceRange hr < 1300)).
Proof.
  destruct (confidence_and_price_ranges env_plain 0
              (ex_row (js "Star Inn") (js "Ring Road") (js "Delhi") 8 0 []))
    as [C1 [C2 [P0 [_ P]]]].
  - intros x _. apply Qle_refl.
  - intros n. split; [apply Qle_refl|reflexivity].
  - split; [split; [apply C2; vm_compute; discriminate|apply C1; vm_compute; reflexivity]|].
    split; [exact P0|].
    apply P. vm_compute; discriminate.
Defined.

(** With no area match and a geocoder that resolves, the two Jaipur hotels
    come out reordered by distance. *)
Lemma area_geocode_fallback_witness :
  let h := heap (initialize env_pipe initial_engine) in
  Permutation (areaFilter env_geo h (js "Jaipur") (js "Civil Lines") [0; 1]%nat) [0; 1]%nat /\
  Sorted (fun a b => (distanceFrom {| lat := 15.5; lng := 73.8 |} h a
                      <= distanceFrom {| lat := 15.5; lng := 73.8 |} h b)%R)
         (areaFilter env_geo h (js "Jaipur") (js "Civil Lines") [0; 1]%nat).
Proof.
  destruct (area_geocode_fallback env_geo (heap (initialize env_pipe initial_engine))
              (js "Jaipur") (js "Civil Lines") [0; 1]%nat) as [Hs _].
  - vm_compute; reflexivity.
  - apply Hs. reflexivity.
Defined.

(** The failed load at the concrete request of a family in Goa. *)
Lemma load_failure_insights_nan_witness :
  fst (generateRecommendations env_plain initial_engine (js "Family") (js "Goa") [] None) =
  {| hotels := [];
     insights := {| totalAnalyzed := 0; averageRating := JNaN; topFeatures := [];
                    cityStats := {| stats_name := js "Goa"; hotelCount := 0;
                                    avgRating := JNaN |} |} |}.
Proof. apply load_failure_insights_nan. reflexivity. Defined.

(* ------------------------------------------------------------------ *)
(** ** Further properties of the engine *)

Lemma jstr_eqb_true a b : jstr_eqb a b = true -> a = b.
Proof. unfold jstr_eqb; destruct (list_eq_dec Z.eq_dec a b); [auto|discriminate]. Qed.

Lemma jstr_eqb_refl a : jstr_eqb a a = true.
Proof. unfold jstr_eqb; destruct (list_eq_dec Z.eq_dec a a); [reflexivity|contradiction]. Qed.

Lemma jstr_eqb_spec a b : jstr_eqb a b = true <-> a = b.
Proof. split; [apply jstr_eqb_true|intros <-; apply jstr_eqb_refl]. Qed.

Lemma lookup_persona_absent {A} (table : list (jstr * A)) persona dflt :
  ~ In persona (map fst table) -> lookup_persona table persona dflt = dflt.
Proof.
  intros Hn. unfold lookup_persona.
  destruct (find (fun e => jstr_eqb (fst e) persona) table) as [[p v]|] eqn:F; [|reflexivity].
  exfalso. apply find_some in F as [Hin Heq]. apply jstr_eqb_true in Heq. simpl in Heq.
  subst p. apply Hn, in_map_iff. exists (persona, v); split; [reflexivity|exact Hin].
Qed.

Lemma bonusKeywords_length persona :
  (List.length (lookup_persona bonusKeywords persona []) <= 5)%nat.
Proof.
  unfold lookup_persona.
  destruct (find (fun e => jstr_eqb (fst e) persona) bonusKeywords) as [[p v]|] eqn:F;
    [|simpl; lia].
  apply find_some in F as [Hin _]. simpl in Hin.
  repeat destruct Hin as [E|Hin]; try (injection E as _ <-; simpl; lia). contradiction.
Qed.

Lemma js_min_le_r a b : js_min a b <= b.
Proof.
  unfold js_min. destruct (Qle_bool a b) eqn:E; [apply Qle_bool_iff; exact E|apply Qle_refl].
Qed.

Lemma js_min_unit x : 0 <= x -> 0 <= js_min 1 x <= 1.
Proof.
  intros Hx. unfold js_min. destruct (Qle_bool 1 x) eqn:E; [lra|].
  apply Bool.not_true_iff_false in E. rewrite Qle_bool_iff in E.
  apply Qnot_le_lt in E. lra.
Qed.

(** The persona bonus is 0.02 per keyword found; the persona tables hold
    five keywords each, so the bonus is in [0, 0.1]. *)
Lemma getPersonaBonus_count hotel persona :
  let ts := toLowerCase (join (js " ") (tags hotel)) in
  let rs := toLowerCase (join (js " ") (reviews hotel)) in
  let found := filter (fun k => includes ts k || includes rs k)
                      (lookup_persona bonusKeywords persona []) in
  getPersonaBonus hotel persona == 0.02 * inject_Z (Z.of_nat (List.length found)) /\
  (List.length found <= 5)%nat.
Proof.
  intros ts rs found.
  assert (Hn : (List.length found <= 5)%nat).
  { unfold found. eapply Nat.le_trans; [apply filter_length_le|apply bonusKeywords_length]. }
  split; [|exact Hn].
  unfold getPersonaBonus. fold ts rs.
  pose proof (bonus_fold (fun k => includes ts k || includes rs k)
                (lookup_persona bonusKeywords persona []) 0) as Hb.
  fold found in Hb. rewrite Qplus_0_l in Hb.
  assert (Hz : inject_Z (Z.of_nat (List.length found)) <= 5).
  { change 5 with (inject_Z 5). rewrite <- Zle_Qle. lia. }
  unfold js_min.
  destruct (Qle_bool (fold_left (fun b k => if includes ts k || includes rs k then b + 0.02 else b)
                        (lookup_persona bonusKeywords persona []) 0) 0.1) eqn:E.
  - exact Hb.
  - exfalso. apply Bool.not_true_iff_false in E. apply E, Qle_bool_iff. rewrite Hb. lra.
Qed.

Lemma getPersonaBonus_range hotel persona : 0 <= getPersonaBonus hotel persona <= 0.1.
Proof.
  destruct (getPersonaBonus_count hotel persona) as [E _]. split.
  - rewrite E. assert (0 <= inject_Z (Z.of_nat (List.length
      (filter (fun k => includes (toLowerCase (join (js " ") (tags hotel))) k
                        || includes (toLowerCase (join (js " ") (reviews hotel))) k)
              (lookup_persona bonusKeywords persona []))))).
    { change 0 with (inject_Z 0). rewrite <- Zle_Qle. lia. }
    lra.
  - apply js_min_le_r.
Qed.

Lemma js_round_nonneg x : 0 <= x -> (0 <= js_round x)%Z.
Proof.
  intros Hx. unfold js_round. change 0%Z with (Qfloor 0). apply Qfloor_resp_le. lra.
Qed.

Lemma js_round_le x (n : Z) : x <= inject_Z n -> (js_round x <= n)%Z.
Proof.
  intros Hx. unfold js_round.
  pose proof (Qfloor_le (x + (1 # 2))) as H.
  assert (Hlt : inject_Z (Qfloor (x + (1 # 2))) < inject_Z (n + 1)).
  { rewrite inject_Z_plus. change (inject_Z 1) with 1. lra. }
  rewrite <- Zlt_Qlt in Hlt. lia.
Qed.

(** For a persona that is not the name of a property of
    [Object.prototype] (for those the code's lookup finds an inherited
    member and [keywords.forEach] throws), the persona bonus is 0.02 for
    each keyword of the persona found in the hotel's tags or reviews
    (lower-cased), so it lies in [0, 0.1]; a persona that is not a key of
    the keyword table gets no bonus. *)
Theorem personaBonus_exact hotel persona :
  ~ In persona object_prototype_keys ->
  let ts := toLowerCase (join (js " ") (tags hotel)) in
  let rs := toLowerCase (join (js " ") (reviews hotel)) in
  let found := filter (fun k => includes ts k || includes rs k)
                      (lookup_persona bonusKeywords persona []) in
  getPersonaBonus hotel persona == 0.02 * inject_Z (Z.of_nat (List.length found)) /\
  0 <= getPersonaBonus hotel persona <= 0.1 /\
  (~ In persona (map fst bonusKeywords) -> getPersonaBonus hotel persona == 0).
Proof.
  intros _ ts rs found.
  destruct (getPersonaBonus_count hotel persona) as [E _].
  split; [exact E|split; [apply getPersonaBonus_range|]].
  intros Hn. rewrite E. unfold found. rewrite (lookup_persona_absent _ _ _ Hn). reflexivity.
Qed.

(** With a logarithm that is non-negative from 1 on, an averageScore in
    [0, 10] and a non-negative review count, the popularity score is an
    integer in [0, 100]. *)
Theorem popularityScore_range env hotel :
  (forall x, 1 <= x -> 0 <= log env x) ->
  0 <= averageScore hotel <= 10 -> 0 <= totalReviews hotel ->
  (0 <= popularityScore env hotel <= 100)%Z.
Proof.
  intros Hlog Ha Ht. unfold popularityScore.
  assert (HL : 0 <= log env (totalReviews hotel + 1)) by (apply Hlog; lra).
  assert (Hr := js_min_unit (log env (totalReviews hotel + 1) / 8)).
  destruct Hr as [Hr0 Hr1].
  { apply Qle_shift_div_l; [reflexivity|lra]. }
  set (rc := js_min 1 (log env (totalReviews hotel + 1) / 8)) in *.
  split.
  - apply js_round_nonneg. setoid_replace ((averageScore hotel / 10 * 0.7 + rc * 0.3) * 100)
      with (7 * averageScore hotel + 30 * rc) by field. lra.
  - apply js_round_le. setoid_replace ((averageScore hotel / 10 * 0.7 + rc * 0.3) * 100)
      with (7 * averageScore hotel + 30 * rc) by field. change (inject_Z 100) with 100. lra.
Qed.

(** Under the same conditions, for a hotel with the sentiment counts 1
    and 0 that every aggregated hotel has, a search score in [0, 1] and a
    persona that is not the name of a property of [Object.prototype], the
    final score is an integer in [0, 103]. *)
Theorem finalScore_range env hotel persona s :
  ~ In persona object_prototype_keys ->
  (forall x, 1 <= x -> 0 <= log env x) ->
  0 <= averageScore hotel <= 10 -> 0 <= totalReviews hotel ->
  positiveWordCount hotel == 1 -> negativeWordCount hotel == 0 ->
  0 <= s <= 1 ->
  (0 <= calculateFinalScore env hotel persona s <= 103)%Z.
Proof.
  intros _ Hlog Ha Ht Hp Hn Hs. unfold calculateFinalScore.
  assert (HL : 0 <= log env (totalReviews hotel + 1)) by (apply Hlog; lra).
  assert (Hr := js_min_unit (log env (totalReviews hotel + 1) / 8)).
  destruct Hr as [Hr0 Hr1].
  { apply Qle_shift_div_l; [reflexivity|lra]. }
  pose proof (getPersonaBonus_range hotel persona) as [Hb0 Hb1].
  set (rc := js_min 1 (log env (totalReviews hotel + 1) / 8)) in *.
  set (b := getPersonaBonus hotel persona) in *.
  assert (Hsr : positiveWordCount hotel / (positiveWordCount hotel + negativeWordCount hotel + 1)
                == 1 # 2) by (rewrite Hp, Hn; reflexivity).
  assert (E : (0 + averageScore hotel / 10 * 0.4 + s * 0.3 + rc * 0.15
               + positiveWordCount hotel / (positiveWordCount hotel + negativeWordCount hotel + 1)
                 * 0.15 + b) * 100
              == 4 * averageScore hotel + 30 * s + 15 * rc + (15 # 2) + 100 * b)
    by (rewrite Hsr; field).
  split.
  - apply js_round_nonneg. rewrite E. lra.
  - apply js_round_le. rewrite E. change (inject_Z 103) with 103. lra.
Qed.

Lemma atan2_range y x : (0 <= y)%R -> (0 <= x)%R -> (0 <= atan2 y x <= PI / 2)%R.
Proof.
  intros Hy Hx. pose proof PI_RGT_0 as Hpi. unfold atan2.
  destruct (Rlt_dec 0 x) as [Hx0|Hx0].
  - pose proof (atan_bound (y / x)) as [_ Hb]. split; [|Lra.lra].
    assert (Hq : (0 <= y / x)%R).
    { unfold Rdiv. apply Rmult_le_pos; [assumption|].
      left. apply Rinv_0_lt_compat. assumption. }
    destruct Hq as [Hq|Hq].
    + rewrite <- atan_0. left. apply atan_increasing. exact Hq.
    + rewrite <- Hq, atan_0. Lra.lra.
  - destruct (Rlt_dec x 0) as [Hx1|Hx1]; [Lra.lra|].
    destruct (Rlt_dec 0 y) as [Hy0|Hy0]; [Lra.lra|].
    destruct (Rlt_dec y 0); Lra.lra.
Qed.

(** The haversine distance lies between 0 and half the circumference of
    the 6371 km sphere, is 0 from a point to itself, and is symmetric. *)
Theorem haversine_range lat1 lon1 lat2 lon2 :
  (0 <= haversineKm lat1 lon1 lat2 lon2 <= 6371 * PI)%R /\
  haversineKm lat1 lon1 lat1 lon1 = 0%R /\
  haversineKm lat1 lon1 lat2 lon2 = haversineKm lat2 lon2 lat1 lon1.
Proof.
  split; [|split].
  - unfold haversineKm; cbv zeta.
    pose proof (atan2_range _ _ (sqrt_pos (sin (toRad (lat2 - lat1) / 2) ^ 2
        + cos (toRad lat1) * cos (toRad lat2) * sin (toRad (lon2 - lon1) / 2) ^ 2))
        (sqrt_pos (1 - (sin (toRad (lat2 - lat1) / 2) ^ 2
        + cos (toRad lat1) * cos (toRad lat2) * sin (toRad (lon2 - lon1) / 2) ^ 2)))).
    Lra.lra.
  - unfold haversineKm; cbv zeta.
    assert (E : forall x, (toRad (x - x) / 2)%R = 0%R) by (intros; unfold toRad; field).
    rewrite !E, sin_0.
    replace (0 ^ 2 + cos (toRad lat1) * cos (toRad lat1) * 0 ^ 2)%R with 0%R by ring.
    rewrite Rminus_0_r, sqrt_0, sqrt_1. unfold atan2.
    destruct (Rlt_dec 0 1) as [_|H]; [|Lra.lra].
    unfold Rdiv; rewrite Rmult_0_l, atan_0. ring.
  - unfold haversineKm; cbv zeta.
    assert (E : forall x y, (sin (toRad (x - y) / 2) ^ 2 = sin (toRad (y - x) / 2) ^ 2)%R).
    { intros x y. replace (toRad (x - y) / 2)%R with (- (toRad (y - x) / 2))%R
        by (unfold toRad; field). rewrite sin_neg. ring. }
    rewrite (E lat2 lat1), (E lon2 lon1), (Rmult_comm (cos (toRad lat1)) (cos (toRad lat2))).
    reflexivity.
Qed.

(** *** [extractCityFromAddress] *)

Lemma starts_with_prefix s p : starts_with s p = true -> exists t, s = p ++ t.
Proof.
  revert s; induction p as [|c p IH]; intros s H; [exists s; reflexivity|].
  destruct s as [|d s]; [discriminate|]. simpl in H.
  apply andb_prop in H as [E H]. apply Z.eqb_eq in E. subst d.
  destruct (IH s H) as [t ->]. exists t. reflexivity.
Qed.

Lemma starts_with_app p t : starts_with (p ++ t) p = true.
Proof. induction p as [|c p IH]; simpl; [destruct t; reflexivity|]. rewrite Z.eqb_refl. exact IH. Qed.

Lemma starts_with_includes s p : starts_with s p = true -> includes s p = true.
Proof. intros H. destruct s; cbn [includes]; rewrite H; reflexivity. Qed.

Lemma includes_cons c s p : includes s p = true -> includes (c :: s) p = true.
Proof. intros H. cbn [includes]. rewrite H. apply orb_true_r. Qed.

Lemma lower_length s : List.length (toLowerCase s) = List.length s.
Proof. apply length_map. Qed.

Lemma first_match_at_some pats s m :
  first_match_at pats s = Some m ->
  exists p, In p pats /\ toLowerCase m = toLowerCase p /\
            includes (toLowerCase s) (toLowerCase p) = true.
Proof.
  induction pats as [|p ps IH]; simpl; [discriminate|].
  destruct (starts_with (toLowerCase s) (toLowerCase p)) eqn:E.
  - intros H. injection H as <-. exists p. split; [left; reflexivity|split].
    + destruct (starts_with_prefix _ _ E) as [t Ht].
      unfold toLowerCase at 1. rewrite <- firstn_map. fold (toLowerCase s).
      rewrite Ht, <- (lower_length p), firstn_app, Nat.sub_diag, firstn_all. simpl.
      apply app_nil_r.
    + apply starts_with_includes, E.
  - intros H. destruct (IH H) as [q [Hq R]]. exists q. split; [right|]; assumption.
Qed.

Lemma first_match_at_none pats s :
  first_match_at pats s = None ->
  forall p, In p pats -> starts_with (toLowerCase s) (toLowerCase p) = false.
Proof.
  induction pats as [|q ps IH]; simpl; [intros _ p []|].
  destruct (starts_with (toLowerCase s) (toLowerCase q)) eqn:E; [discriminate|].
  intros H p [<-|Hp]; [exact E|apply IH; assumption].
Qed.

Lemma match_ci_some pats s m :
  match_ci pats s = Some m ->
  exists p, In p pats /\ toLowerCase m = toLowerCase p /\
            includes (toLowerCase s) (toLowerCase p) = true.
Proof.
  induction s as [|c s IH]; simpl.
  - destruct (first_match_at pats []) eqn:E; [|discriminate].
    intros H; injection H as <-. apply (first_match_at_some _ _ _ E).
  - destruct (first_match_at pats (c :: s)) eqn:E.
    + intros H; injection H as <-. apply (first_match_at_some _ _ _ E).
    + intros H. destruct (IH H) as [p [Hp [Hm Hi]]]. exists p.
      split; [exact Hp|split; [exact Hm|]]. apply includes_cons, Hi.
Qed.

Lemma match_ci_none pats s :
  match_ci pats s = None ->
  forall p, In p pats -> includes (toLowerCase s) (toLowerCase p) = false.
Proof.
  induction s as [|c s IH]; intros H p Hp; cbn [match_ci] in H.
  - destruct (first_match_at pats []) eqn:E; [discriminate|].
    pose proof (first_match_at_none _ _ E p Hp) as F.
    change (toLowerCase []) with (@nil Z) in *. cbn [includes]. rewrite F. reflexivity.
  - destruct (first_match_at pats (c :: s)) eqn:E; [discriminate|].
    pose proof (first_match_at_none _ _ E p Hp) as F.
    change (toLowerCase (c :: s)) with (lower_unit c :: toLowerCase s) in *.
    cbn [includes]. rewrite F, (IH H p Hp). reflexivity.
Qed.

Lemma replace_ci_short p r s :
  (List.length s < List.length p)%nat -> replace_ci p r s = s.
Proof.
  induction s as [|c s IH]; intros Hl.
  - cbn [replace_ci]. destruct (starts_with (toLowerCase []) (toLowerCase p)) eqn:E; [|reflexivity].
    destruct (starts_with_prefix _ _ E) as [t Ht].
    apply (f_equal (@List.length Z)) in Ht. rewrite length_app, !lower_length in Ht.
    simpl in Ht, Hl. lia.
  - cbn [replace_ci]. destruct (starts_with (toLowerCase (c :: s)) (toLowerCase p)) eqn:E.
    + exfalso. destruct (starts_with_prefix _ _ E) as [t Ht].
      apply (f_equal (@List.length Z)) in Ht. rewrite length_app, !lower_length in Ht.
      simpl in Ht, Hl. lia.
    + f_equal. apply IH. simpl in Hl. lia.
Qed.

(** The [.replace(/New Delhi/i, 'Delhi')] applied to a matched city name. *)
Lemma replace_new_delhi m :
  (List.length m <= 9)%nat ->
  toLowerCase m <> js "new delhi" -> replace_ci (js "New Delhi") (js "Delhi") m = m.
Proof.
  intros Hl Hn. destruct m as [|c m]; [reflexivity|]. cbn [replace_ci].
  destruct (starts_with (toLowerCase (c :: m)) (toLowerCase (js "New Delhi"))) eqn:E.
  - exfalso. destruct (starts_with_prefix _ _ E) as [t Ht].
    assert (t = []).
    { apply (f_equal (@List.length Z)) in Ht. rewrite length_app, !lower_length in Ht.
      simpl in Ht, Hl. destruct t; [reflexivity|simpl in Ht; lia]. }
    subst t. rewrite app_nil_r in Ht. apply Hn. exact Ht.
  - f_equal. apply replace_ci_short. simpl in *. lia.
Qed.

Lemma replace_new_delhi_hit m :
  toLowerCase m = js "new delhi" -> replace_ci (js "New Delhi") (js "Delhi") m = js "Delhi".
Proof.
  intros Hm.
  assert (Hl : List.length m = 9%nat) by (rewrite <- lower_length, Hm; reflexivity).
  destruct m as [|c m]; [discriminate|]. cbn [replace_ci]. rewrite Hm.
  change (js "Delhi" ++ skipn 9 (c :: m) = js "Delhi").
  rewrite (skipn_all2 (c :: m)) by lia. reflexivity.
Qed.

Lemma lower_unit_idem c : lower_unit (lower_unit c) = lower_unit c.
Proof.
  unfold lower_unit.
  destruct ((65 <=? c) && (c <=? 90))%Z eqn:E1.
  - apply andb_prop in E1 as [A B]. apply Z.leb_le in A, B.
    replace ((65 <=? c + 32) && (c + 32 <=? 90))%Z with false
      by (symmetry; apply andb_false_iff; right; apply Z.leb_gt; lia).
    replace ((192 <=? c + 32) && (c + 32 <=? 222) && negb (c + 32 =? 215))%Z with false
      by (symmetry; apply andb_false_iff; left; apply andb_false_iff; left; apply Z.leb_gt; lia).
    reflexivity.
  - destruct ((192 <=? c) && (c <=? 222) && negb (c =? 215))%Z eqn:E2.
    + apply andb_prop in E2 as [E2 _]. apply andb_prop in E2 as [A B]. apply Z.leb_le in A, B.
      replace ((65 <=? c + 32) && (c + 32 <=? 90))%Z with false
        by (symmetry; apply andb_false_iff; right; apply Z.leb_gt; lia).
      replace ((192 <=? c + 32) && (c + 32 <=? 222) && negb (c + 32 =? 215))%Z with false
        by (symmetry; apply andb_false_iff; left; apply andb_false_iff; right; apply Z.leb_gt; lia).
      reflexivity.
    + rewrite E1, E2. reflexivity.
Qed.

Lemma lower_idem s : toLowerCase (toLowerCase s) = toLowerCase s.
Proof. unfold toLowerCase. rewrite map_map. apply map_ext, lower_unit_idem. Qed.

(** The inner loop of [extractCityFromAddress] over any list of patterns. *)
Lemma extract_loop addr pss :
  let go := fix go (ps : list (list jstr)) :=
    match ps with
    | [] => js "Delhi"
    | p :: ps' =>
        match match_ci p addr with
        | Some m => replace_ci (js "New Delhi") (js "Delhi") m
        | None => go ps'
        end
    end in
  (go pss = js "Delhi" /\
   forall p, In p (List.concat pss) -> includes (toLowerCase addr) (toLowerCase p) = false) \/
  exists ps m, In ps pss /\ match_ci ps addr = Some m /\
               go pss = replace_ci (js "New Delhi") (js "Delhi") m.
Proof.
  cbv zeta. induction pss as [|ps pss IH].
  - left. split; [reflexivity|intros p []].
  - cbv beta iota. destruct (match_ci ps addr) as [m|] eqn:E.
    + right. exists ps, m. split; [left; reflexivity|split; [exact E|reflexivity]].
    + destruct IH as [[H1 H2]|[ps' [m [H1 [H2 H3]]]]].
      * left. split; [exact H1|]. intros p Hp. apply in_app_or in Hp as [Hp|Hp].
        -- apply (match_ci_none _ _ E _ Hp).
        -- apply H2, Hp.
      * right. exists ps', m. split; [right; exact H1|split; [exact H2|exact H3]].
Qed.

Lemma extract_cases addr :
  (extractCityFromAddress addr = js "Delhi" /\
   forall p, In p (List.concat cityPatterns) -> includes (toLowerCase addr) (toLowerCase p) = false) \/
  exists ps m, In ps cityPatterns /\ match_ci ps addr = Some m /\
               extractCityFromAddress addr = replace_ci (js "New Delhi") (js "Delhi") m.
Proof. exact (extract_loop addr cityPatterns). Qed.

Lemma cityPatterns_names p :
  In p (List.concat cityPatterns) ->
  p = js "New Delhi" \/
  (In (toLowerCase p) (map toLowerCase (map fst cityCoords)) /\
   (List.length p <= 9)%nat /\ toLowerCase p <> js "new delhi").
Proof.
  intros Hp. simpl in Hp.
  repeat destruct Hp as [<-|Hp]; try contradiction; [left; reflexivity|..];
    right; (split; [cbn; intuition reflexivity|split; [cbn; lia|discriminate]]).
Qed.

(** The city read off an address is, up to letter case, one of the ten
    cities of the coordinates table ("New Delhi" becomes "Delhi"); an
    address that mentions Delhi in any letter case gives Delhi, whatever
    other city it names; an address naming none of the ten cities gives
    "Delhi". *)
Theorem extractCity_result addr :
  In (toLowerCase (extractCityFromAddress addr)) (map toLowerCase (map fst cityCoords)) /\
  (includes (toLowerCase addr) (js "delhi") = true ->
   toLowerCase (extractCityFromAddress addr) = js "delhi") /\
  ((forall p, In p (List.concat cityPatterns) -> includes (toLowerCase addr) (toLowerCase p) = false) ->
   extractCityFromAddress addr = js "Delhi").
Proof.
  split; [|split].
  - destruct (extract_cases addr) as [[-> _]|[ps [m [Hps [Hm ->]]]]]; [cbn; auto|].
    destruct (match_ci_some _ _ _ Hm) as [p [Hp [Hl _]]].
    assert (Hc : In p (List.concat cityPatterns)) by (apply in_concat; exists ps; auto).
    destruct (cityPatterns_names p Hc) as [->|[Hin [Hlen Hnd]]].
    + rewrite replace_new_delhi_hit by exact Hl. cbn; auto.
    + rewrite replace_new_delhi.
      * rewrite Hl. exact Hin.
      * rewrite <- lower_length, Hl, lower_length. exact Hlen.
      * rewrite Hl. exact Hnd.
  - intros Hd. unfold extractCityFromAddress. cbv beta iota delta [cityPatterns].
    destruct (match_ci [js "New Delhi"; js "Delhi"] addr) as [m|] eqn:E.
    + destruct (match_ci_some _ _ _ E) as [p [Hp [Hl _]]].
      destruct Hp as [<-|[<-|[]]].
      * rewrite replace_new_delhi_hit by exact Hl. reflexivity.
      * rewrite replace_new_delhi.
        -- exact Hl.
        -- rewrite <- lower_length, Hl. cbn; lia.
        -- rewrite Hl. discriminate.
    + exfalso. pose proof (match_ci_none _ _ E (js "Delhi") (or_intror (or_introl eq_refl))) as F.
      change (toLowerCase (js "Delhi")) with (js "delhi") in F. congruence.
  - intros Hn. destruct (extract_cases addr) as [[-> _]|[ps [m [Hps [Hm _]]]]]; [reflexivity|].
    exfalso. destruct (match_ci_some _ _ _ Hm) as [p [Hp [_ Hi]]].
    assert (Hc : In p (List.concat cityPatterns)) by (apply in_concat; exists ps; auto).
    rewrite (Hn p Hc) in Hi. discriminate.
Qed.

(** *** The fields of one aggregated row *)

Lemma aggregateRow_other env r row :
  let hr := fst (aggregateRow env r row) in
  let c := if is_empty (Raw.city row) then extractCityFromAddress (Raw.address row)
           else Raw.city row in
  name hr = Raw.property_name row /\
  address hr = Raw.address row /\
  city hr = c /\
  tags hr = firstn 10 (tagSet (Raw.hotel_facilities row)) /\
  platformRatings hr = parsePlatformRatings env row /\
  coordinates hr = getCoordinatesForRow row c /\
  starRating hr = parseStarRating (Raw.hotel_star_rating row) /\
  reviewSummary hr = buildSimpleReviewSummary (Raw.top_positive_review row)
                                              (Raw.top_negative_review row).
Proof.
  unfold aggregateRow. cbv zeta.
  destruct (if Qlt_bool 0 (Raw.price row) then _ else _) as [p r'].
  repeat split; reflexivity.
Qed.

Lemma mem_jstr_In x l : mem_jstr x l = true <-> In x l.
Proof.
  induction l as [|y l IH]; simpl; [split; [discriminate|intros []]|].
  rewrite orb_true_iff, jstr_eqb_spec, IH. split; intros [H|H]; auto.
Qed.

(** A concrete string is shown absent from a concrete list by evaluation. *)
Ltac not_in_by_eval := let H := fresh in intros H; apply mem_jstr_In in H; vm_compute in H; discriminate H.

Lemma set_of_list_fold l acc :
  NoDup acc ->
  NoDup (fold_left (fun acc x => if mem_jstr x acc then acc else acc ++ [x]) l acc) /\
  forall x, In x (fold_left (fun acc x => if mem_jstr x acc then acc else acc ++ [x]) l acc)
            <-> In x acc \/ In x l.
Proof.
  revert acc; induction l as [|y l IH]; intros acc Hacc; simpl.
  - split; [exact Hacc|]. intros x; split; [auto|intros [H|[]]; exact H].
  - destruct (mem_jstr y acc) eqn:E.
    + destruct (IH acc Hacc) as [H1 H2]. split; [exact H1|].
      intros x. rewrite H2. apply mem_jstr_In in E. split; [intros [H|H]; auto|].
      intros [H|[<-|H]]; auto.
    + assert (Hn : NoDup (acc ++ [y])).
      { apply (Permutation_NoDup (Permutation_cons_append acc y)). constructor; [|exact Hacc].
        intros Hin. apply mem_jstr_In in Hin. congruence. }
      destruct (IH _ Hn) as [H1 H2]. split; [exact H1|].
      intros x. rewrite H2, in_app_iff. simpl. intuition.
Qed.

Lemma set_of_list_spec l : NoDup (set_of_list l) /\ forall x, In x (set_of_list l) <-> In x l.
Proof.
  destruct (set_of_list_fold l [] (NoDup_nil _)) as [H1 H2]. split; [exact H1|].
  intros x. unfold set_of_list. rewrite H2. simpl. intuition.
Qed.

Lemma NoDup_firstn' {A} n (l : list A) : NoDup l -> NoDup (firstn n l).
Proof. intros H. rewrite <- (firstn_skipn n l) in H. apply NoDup_app_remove_r in H. exact H. Qed.

Lemma tagSet_In fac t :
  In t (tagSet fac) ->
  exists piece, In piece (split_on facility_delim fac) /\ trim piece <> [] /\
                t = toLowerCase (trim piece).
Proof.
  unfold tagSet. destruct (is_empty fac); [intros []|].
  intros H. apply set_of_list_spec, in_flat_map in H as [x [Hx Ht]].
  destruct (is_empty (trim x)) eqn:E; [contradiction|].
  destruct Ht as [<-|[]]. exists x. split; [exact Hx|split; [|reflexivity]].
  destruct (trim x); discriminate.
Qed.

(** *** [parseStarRating] *)

Lemma digits_value_nonneg ds acc :
  (0 <= acc)%Z -> (forall d, In d ds -> is_digit d = true) ->
  (0 <= fold_left (fun acc d => acc * 10 + (d - 48))%Z ds acc)%Z.
Proof.
  revert acc; induction ds as [|d ds IH]; intros acc Ha Hd; simpl; [exact Ha|].
  apply IH; [|intros; apply Hd; right; assumption].
  assert (H := Hd d (or_introl eq_refl)). unfold is_digit in H.
  apply andb_prop in H as [H1 H2]. apply Z.leb_le in H1, H2. lia.
Qed.

Lemma digits_value_lt ds acc :
  (0 <= acc)%Z -> (forall d, In d ds -> is_digit d = true) ->
  (fold_left (fun acc d => acc * 10 + (d - 48))%Z ds acc
     < (acc + 1) * 10 ^ Z.of_nat (List.length ds))%Z.
Proof.
  revert acc; induction ds as [|d ds IH]; intros acc Ha Hd; [simpl; lia|].
  cbn [fold_left]. change (List.length (d :: ds)) with (S (List.length ds)).
  assert (H := Hd d (or_introl eq_refl)). unfold is_digit in H.
  apply andb_prop in H as [H1 H2]. apply Z.leb_le in H1, H2.
  assert (Hlt := IH (acc * 10 + (d - 48))%Z ltac:(lia)
                    ltac:(intros; apply Hd; right; assumption)).
  rewrite Nat2Z.inj_succ, Z.pow_succ_r by lia.
  assert (Hp : (0 < 10 ^ Z.of_nat (List.length ds))%Z) by (apply Z.pow_pos_nonneg; lia).
  nia.
Qed.

Lemma parseStarRating_pos s v : parseStarRating s = Some v -> (0 < v)%Z.
Proof.
  unfold parseStarRating. intros H.
  assert (Hd : forall d, In d (filter is_digit s) -> is_digit d = true)
    by (intros d Hin; apply filter_In in Hin; apply Hin).
  destruct (filter is_digit s) as [|d ds] eqn:E; [discriminate|].
  set (w := fold_left _ (d :: ds) 0%Z) in H.
  assert (Hw : (0 <= w)%Z) by (apply digits_value_nonneg; [lia|exact Hd]).
  destruct (w =? 0)%Z eqn:Ez; [discriminate|]. injection H as <-.
  apply Z.eqb_neq in Ez. lia.
Qed.

(** *** [truncateSentence] and [buildSimpleReviewSummary] *)

Lemma drop_ws_suffix s : exists u, s = u ++ drop_ws s.
Proof.
  induction s as [|c s [u Hu]]; [exists []; reflexivity|]. simpl.
  destruct (is_ws c); [exists (c :: u); simpl; f_equal; exact Hu|exists []; reflexivity].
Qed.

Lemma drop_non_ws_suffix s : exists u, s = u ++ drop_non_ws s.
Proof.
  induction s as [|c s [u Hu]]; [exists []; reflexivity|]. simpl.
  destruct (is_ws c); [exists []; reflexivity|exists (c :: u); simpl; f_equal; exact Hu].
Qed.

Lemma strip_last_word_prefix s : exists q, s = strip_last_word s ++ q.
Proof.
  unfold strip_last_word. destruct (drop_non_ws_suffix (rev s)) as [u Hu].
  destruct (drop_non_ws (rev s)) as [|z l] eqn:E; [exists []; rewrite app_nil_r; reflexivity|].
  destruct (drop_ws_suffix (z :: l)) as [u' Hu'].
  exists (rev (u ++ u')).
  rewrite <- rev_app_distr, <- app_assoc, <- Hu', <- Hu, rev_involutive. reflexivity.
Qed.

Lemma trim_nil_iff s : is_empty (trim s) = true <-> trim s = [].
Proof. destruct (trim s); simpl; split; congruence. Qed.

Lemma In_firstn_In {A} n (l : list A) x : In x (firstn n l) -> In x l.
Proof. intros H. rewrite <- (firstn_skipn n l). apply in_or_app. left. exact H. Qed.

Lemma tagSet_NoDup fac : NoDup (tagSet fac).
Proof. unfold tagSet. destruct (is_empty fac); [constructor|apply set_of_list_spec]. Qed.

(** The tags of an aggregated hotel are at most ten distinct non-empty
    lower-case strings, each the trimmed, lower-cased text of one piece of
    the facilities column split at "•" or "|". *)
Theorem aggregated_tags env r row :
  let hr := fst (aggregateRow env r row) in
  (List.length (tags hr) <= 10)%nat /\ NoDup (tags hr) /\
  forall t, In t (tags hr) ->
    t <> [] /\ toLowerCase t = t /\
    exists piece, In piece (split_on facility_delim (Raw.hotel_facilities row)) /\
                  t = toLowerCase (trim piece).
Proof.
  intros hr. destruct (aggregateRow_other env r row) as [_ [_ [_ [Ht _]]]]. fold hr in Ht.
  rewrite Ht. split; [apply firstn_le_length|split; [apply NoDup_firstn', tagSet_NoDup|]].
  intros t Hin. apply In_firstn_In, tagSet_In in Hin as [piece [Hp [Hne ->]]].
  split; [|split; [apply lower_idem|exists piece; split; [exact Hp|reflexivity]]].
  unfold toLowerCase. destruct (trim piece); [contradiction|discriminate].
Qed.

(** For a hotel_star_rating column with at most 15 digits (beyond that
    [parseInt] rounds to a double, and from 309 digits on it gives
    Infinity), the aggregation records no star rating exactly when the
    column has no digit or its digits read as 0, and a star rating it
    records is a positive integer below 10^15: the column's digits read as
    a decimal numeral. *)
Theorem starRating_positive env r row :
  let ds := filter is_digit (Raw.hotel_star_rating row) in
  let hr := fst (aggregateRow env r row) in
  (List.length ds <= 15)%nat ->
  (starRating hr = None <->
     ds = [] \/ fold_left (fun acc d => acc * 10 + (d - 48))%Z ds 0%Z = 0%Z) /\
  (forall v, starRating hr = Some v ->
     v = fold_left (fun acc d => acc * 10 + (d - 48))%Z ds 0%Z /\ (0 < v < 10 ^ 15)%Z).
Proof.
  intros ds hr Hlen.
  destruct (aggregateRow_other env r row) as [_ [_ [_ [_ [_ [_ [Hs _]]]]]]].
  unfold hr. rewrite Hs. unfold parseStarRating. fold ds.
  assert (Hd : forall d, In d ds -> is_digit d = true)
    by (intros d Hin; apply filter_In in Hin; apply Hin).
  destruct ds as [|d ds'] eqn:E.
  - split; [split; [intros _; left; reflexivity|reflexivity]|intros v Hv; discriminate].
  - set (w := fold_left _ (d :: ds') 0%Z).
    assert (Hw : (0 <= w)%Z) by (apply digits_value_nonneg; [lia|exact Hd]).
    assert (Hb : (w < 10 ^ 15)%Z).
    { assert (Hl := digits_value_lt (d :: ds') 0 ltac:(lia) Hd). fold w in Hl.
      eapply Z.lt_le_trans; [exact Hl|].
      rewrite Z.mul_1_l. apply Z.pow_le_mono_r; lia. }
    destruct (w =? 0)%Z eqn:Ez.
    + apply Z.eqb_eq in Ez. split; [split; [intros _; right; exact Ez|reflexivity]|].
      intros v Hv; discriminate.
    + apply Z.eqb_neq in Ez. split.
      * split; [discriminate|intros [H|H]; [discriminate|contradiction]].
      * intros v Hv. injection Hv as <-. split; [reflexivity|lia].
Qed.

(** A row whose reviews_summary is blank gets no platform ratings, a
    review total of 0, and its own average_rating as averageScore (0 when
    that column is 0 or missing). *)
Theorem blank_summary_no_ratings env r row :
  trim (Raw.reviews_summary row) = [] ->
  let hr := fst (aggregateRow env r row) in
  platformRatings hr = [] /\ totalReviews hr == 0 /\ averageScore hr == Raw.average_rating row.
Proof.
  intros Hb hr.
  assert (Hp : parsePlatformRatings env row = []) by (unfold parsePlatformRatings; rewrite Hb; reflexivity).
  destruct (aggregateRow_other env r row) as [_ [_ [_ [_ [Hpr _]]]]].
  destruct (aggregateRow_fields env r row) as [Ha [Htr _]]. fold hr in Hpr, Ha, Htr.
  rewrite Hp in Hpr, Ha, Htr. split; [exact Hpr|split; [rewrite Htr; reflexivity|]].
  rewrite Ha. destruct (Qeq_bool (Raw.average_rating row) 0) eqn:E; [|reflexivity].
  apply Qeq_bool_iff in E. rewrite E. reflexivity.
Qed.


(** A text of at most 140 code units is kept as it is; a longer one is cut
    to a prefix of its first 140 code units (the last, possibly partial,
    word dropped) followed by "…", so the result never exceeds 141 code
    units. *)
Theorem truncateSentence_shape text :
  (List.length (truncateSentence text) <= 141)%nat /\
  ((List.length text <= 140)%nat -> truncateSentence text = text) /\
  ((140 < List.length text)%nat ->
   exists p q, truncateSentence text = p ++ [8230%Z] /\ firstn 140 text = p ++ q).
Proof.
  unfold truncateSentence. destruct (Nat.leb_spec (List.length text) 140) as [Hl|Hl].
  - split; [lia|split; [auto|intros; lia]].
  - destruct (strip_last_word_prefix (firstn 140 text)) as [q Hq].
    split; [|split; [intros; lia|intros _; exists (strip_last_word (firstn 140 text)), q; auto]].
    rewrite length_app. change (List.length [8230%Z]) with 1%nat.
    assert (E := f_equal (@List.length Z) Hq). rewrite length_app in E.
    pose proof (firstn_le_length 140 text). lia.
Qed.

(** The review summary is absent exactly when both reviews are blank after
    trimming; otherwise it ends with "." and, when the positive review is
    not blank, starts with "Guests appreciated ". *)
Theorem reviewSummary_shape pos neg :
  (buildSimpleReviewSummary pos neg = None <-> trim pos = [] /\ trim neg = []) /\
  (forall s, buildSimpleReviewSummary pos neg = Some s -> exists u, s = u ++ js ".") /\
  (trim pos <> [] ->
   exists u, buildSimpleReviewSummary pos neg = Some (js "Guests appreciated " ++ u)).
Proof.
  unfold buildSimpleReviewSummary. cbv zeta.
  destruct (trim pos) as [|a p], (trim neg) as [|b n].
  - split; [split; auto|split; [discriminate|intros H; contradiction]].
  - split; [split; [discriminate|intros [_ H]; discriminate]|split].
    + intros s H. injection H as <-.
      exists (js "Some mentioned " ++ truncateSentence (b :: n)). reflexivity.
    + intros H; contradiction.
  - split; [split; [discriminate|intros [H _]; discriminate]|split].
    + intros s H. injection H as <-.
      exists (js "Guests appreciated " ++ truncateSentence (a :: p)). reflexivity.
    + intros _. eexists. reflexivity.
  - split; [split; [discriminate|intros [H _]; discriminate]|split].
    + intros s H. injection H as <-.
      exists (join (js ". ") [js "Guests appreciated " ++ truncateSentence (a :: p);
                             js "Some mentioned " ++ truncateSentence (b :: n)]).
      reflexivity.
    + intros _. eexists. reflexivity.
Qed.

(** *** [getAvailableCities] and [searchHotelsByCity] *)

Lemma jstr_ltb_irrefl a : jstr_ltb a a = false.
Proof. induction a as [|x a IH]; simpl; [reflexivity|]. rewrite Z.ltb_irrefl, Z.eqb_refl. exact IH. Qed.

Lemma jstr_ltb_asym a b : jstr_ltb a b = true -> jstr_ltb b a = false.
Proof.
  revert b; induction a as [|x a IH]; intros [|y b] H; simpl in *; try discriminate; try reflexivity.
  destruct (Z.ltb_spec x y), (Z.ltb_spec y x), (Z.eqb_spec x y), (Z.eqb_spec y x);
    simpl in *; try lia; try discriminate; auto.
Qed.

Lemma jstr_ltb_trans a b c : jstr_ltb a b = true -> jstr_ltb b c = true -> jstr_ltb a c = true.
Proof.
  revert b c; induction a as [|x a IH]; intros [|y b] [|z c] H1 H2; simpl in *;
    try discriminate; try reflexivity.
  destruct (Z.ltb_spec x y), (Z.ltb_spec y z), (Z.ltb_spec x z),
           (Z.eqb_spec x y), (Z.eqb_spec y z), (Z.eqb_spec x z);
    simpl in *; try lia; try discriminate; eauto.
Qed.

Lemma jstr_ltb_total a b : a <> b -> jstr_ltb a b = true \/ jstr_ltb b a = true.
Proof.
  revert b; induction a as [|x a IH]; intros [|y b] Hne; simpl; auto;
    try (exfalso; apply Hne; reflexivity).
  destruct (Z.ltb_spec x y), (Z.ltb_spec y x), (Z.eqb_spec x y), (Z.eqb_spec y x);
    simpl; try lia; auto.
  subst y. apply IH. intros ->. apply Hne. reflexivity.
Qed.

Lemma Sorted_strengthen {A} (R R' : A -> A -> Prop) l :
  (forall a b, R a b -> a <> b -> R' a b) -> NoDup l -> Sorted R l -> Sorted R' l.
Proof.
  intros HR Hnd Hs. induction Hs as [|a l Hs IH Hhd]; constructor.
  - apply IH. inversion Hnd; assumption.
  - destruct Hhd as [|b l' Hab]; constructor. apply HR; [exact Hab|].
    intros ->. inversion Hnd as [|? ? Hn]. apply Hn. left. reflexivity.
Qed.

Lemma city_list_spec h locs :
  forall c, In c (map (fun l => city (deref h l)) locs) <->
            exists l, In l locs /\ city (deref h l) = c.
Proof.
  intros c. rewrite in_map_iff. split; intros [l [H1 H2]]; exists l; auto.
Qed.

(** [getAvailableCities] lists the cities of the collection, each once, in
    strictly ascending code-unit order. *)
Theorem availableCities_sorted st :
  let cs := fst (getAvailableCities st) in
  StronglySorted (fun a b => jstr_ltb a b = true) cs /\ NoDup cs /\
  forall c, In c cs <-> exists l, In l (aggregatedHotels st) /\ city (deref (heap st) l) = c.
Proof.
  intros cs. unfold cs, getAvailableCities. cbn [fst].
  set (ds := set_of_list _).
  destruct (set_of_list_spec (map (fun l => city (deref (heap st) l)) (aggregatedHotels st)))
    as [Hnd Hin]. fold ds in Hnd, Hin.
  pose proof (sort_by_perm jstr_ltb ds) as Hp.
  assert (Hnd' : NoDup (sort_by jstr_ltb ds)) by (eapply Permutation_NoDup; [symmetry; exact Hp|exact Hnd]).
  split; [|split; [exact Hnd'|]].
  - apply Sorted_StronglySorted; [intros a b c; apply jstr_ltb_trans|].
    apply (Sorted_strengthen (not_after jstr_ltb)); [|exact Hnd'|apply sort_by_sorted, jstr_ltb_asym].
    intros a b Hab Hne. unfold not_after in Hab.
    destruct (jstr_ltb_total a b Hne) as [H|H]; [exact H|congruence].
  - intros c. rewrite <- city_list_spec, <- Hin. split; apply Permutation_in; [exact Hp|symmetry; exact Hp].
Qed.

(** After initialization, every city that [getAvailableCities] lists gives
    a non-empty [searchHotelsByCity] result. *)
Theorem availableCities_searchable env st c :
  In c (fst (getAvailableCities (initialize env st))) ->
  fst (searchHotelsByCity env (initialize env st) c) <> [].
Proof.
  intros Hc. destruct (availableCities_sorted (initialize env st)) as [_ [_ Hin]].
  apply Hin in Hc as [l [Hl Hcity]].
  unfold searchHotelsByCity. rewrite (initialize_done env (initialize env st))
    by apply initialize_initialized.
  destruct (is_empty c || jstr_eqb c (js "all")); cbn [fst].
  - intros E. rewrite E in Hl. exact Hl.
  - intros E. assert (Hf : In l (filter (fun l => jstr_eqb (toLowerCase (city (deref (heap (initialize env st)) l)))
                                                   (toLowerCase c)) (aggregatedHotels (initialize env st)))).
    { apply filter_In. split; [exact Hl|]. rewrite Hcity. apply jstr_eqb_refl. }
    rewrite E in Hf. exact Hf.
Qed.

(** *** [initialize]: the collection built from the CSV rows *)





(** *** [generateInsights] *)

Lemma insights_fields h hs c :
  let ins := generateInsights h hs c in
  totalAnalyzed ins = List.length hs /\
  cityStats ins = {| stats_name := c; hotelCount := List.length hs; avgRating := averageRating ins |}.
Proof. split; reflexivity. Qed.

(** The statistics of [generateInsights]: the count of the hotels given,
    the city as given, and, for a non-empty list, an average that is the
    mean averageScore rounded to one decimal (a multiple of 0.1 within 0.05
    of the mean, so finite for the finite scores of the model), in
    [0, 10] when every averageScore is. *)
Theorem insights_counts h hs c :
  let ins := generateInsights h hs c in
  totalAnalyzed ins = List.length hs /\
  cityStats ins = {| stats_name := c; hotelCount := List.length hs; avgRating := averageRating ins |} /\
  (hs <> [] ->
   let m := sumQ (fun l => averageScore (deref h l)) hs / inject_Z (Z.of_nat (List.length hs)) in
   exists q z, averageRating ins = JFin q /\ q == inject_Z z / 10 /\
     q - (1 # 20) <= m < q + (1 # 20) /\
     ((forall l, In l hs -> 0 <= averageScore (deref h l) <= 10) -> 0 <= q <= 10)).
Proof.
  intros ins. destruct (insights_fields h hs c) as [H1 H2]. split; [exact H1|split; [exact H2|]].
  intros Hne m. unfold ins, generateInsights. cbv zeta. cbn [averageRating].
  set (n := inject_Z (Z.of_nat (List.length hs))) in *.
  assert (Hn : 0 < n).
  { unfold n. change 0 with (inject_Z 0). rewrite <- Zlt_Qlt.
    destruct hs; [contradiction|simpl; lia]. }
  unfold js_div. replace (Qeq_bool n 0) with false
    by (symmetry; apply Bool.not_true_iff_false; rewrite Qeq_bool_iff; intros E; rewrite E in Hn;
        discriminate Hn).
  cbn [round1].
  pose proof (fold_sumQ (fun l => averageScore (deref h l)) hs 0) as Hs. cbv beta in Hs.
  set (sum := fold_left _ hs 0) in *.
  assert (Hsm : sum / n == m).
  { unfold m. rewrite Hs. rewrite Qplus_0_l. reflexivity. }
  set (z := js_round (sum / n * 10)).
  exists (inject_Z z / 10), z. split; [reflexivity|split; [reflexivity|split]].
  { assert (Hf1 := Qfloor_le (sum / n * 10 + (1 # 2))).
    assert (Hf2 := Qlt_floor (sum / n * 10 + (1 # 2))).
    fold (js_round (sum / n * 10)) in Hf1, Hf2. fold z in Hf1, Hf2.
    rewrite inject_Z_plus in Hf2. change (inject_Z 1) with 1 in Hf2.
    rewrite <- Hsm. split.
    - assert (E : inject_Z z / 10 - (1 # 20) == (inject_Z z - (1 # 2)) / 10) by field.
      rewrite E. apply Qle_shift_div_r; [reflexivity|]. lra.
    - assert (E : inject_Z z / 10 + (1 # 20) == (inject_Z z + (1 # 2)) / 10) by field.
      rewrite E. apply Qlt_shift_div_l; [reflexivity|]. lra. }
  intros Hb.
  assert (Hm : 0 <= sum / n <= 10).
  { apply Qdiv_between; [exact Hn| |].
    - rewrite Hs. pose proof (sumQ_nonneg (fun l => averageScore (deref h l)) hs) as S0.
      assert (0 <= sumQ (fun l => averageScore (deref h l)) hs)
        by (apply S0; intros l Hl; apply Hb, Hl). lra.
    - rewrite Hs. unfold n. rewrite <- sumQ_ones.
      pose proof (sumQ_bound (fun l => averageScore (deref h l)) (fun _ => 1) 10 hs) as S1.
      assert (sumQ (fun l => averageScore (deref h l)) hs <= 10 * sumQ (fun _ => 1) hs)
        by (apply S1; intros l Hl; specialize (Hb l Hl); lra). lra. }
  assert (Hz0 : (0 <= z)%Z) by (apply js_round_nonneg; lra).
  assert (Hz1 : (z <= 100)%Z)
    by (apply js_round_le; change (inject_Z 100) with 100; lra).
  split.
  - apply Qle_shift_div_l; [reflexivity|]. change 0 with (inject_Z 0) at 1.
    rewrite Qmult_0_l. change 0 with (inject_Z 0). rewrite <- Zle_Qle. exact Hz0.
  - apply Qle_shift_div_r; [reflexivity|]. change (10 * 10) with (inject_Z 100).
    rewrite <- Zle_Qle. exact Hz1.
Qed.

(** The tag counter of [generateInsights]: [bump] on an association list
    with distinct keys. *)
Lemma bump_keys t acc :
  map fst (bump t acc) = if mem_jstr t (map fst acc) then map fst acc else map fst acc ++ [t].
Proof.
  induction acc as [|[k m] acc IH]; simpl; [reflexivity|].
  destruct (jstr_eqb t k) eqn:E; simpl; [reflexivity|].
  rewrite IH. destruct (mem_jstr t (map fst acc)); reflexivity.
Qed.

Lemma bump_in_new t acc k n :
  ~ In t (map fst acc) -> (In (k, n) (bump t acc) <-> In (k, n) acc \/ (k, n) = (t, 1%nat)).
Proof.
  induction acc as [|[k' m'] acc IH]; intros Hn; simpl.
  - split; [intros [E|[]]; right; congruence|intros [[]|E]; left; congruence].
  - destruct (jstr_eqb t k') eqn:E.
    + exfalso. apply jstr_eqb_true in E. subst k'. apply Hn. left. reflexivity.
    + simpl. assert (Hn' : ~ In t (map fst acc)) by (intros H; apply Hn; right; exact H).
      rewrite (IH Hn'). tauto.
Qed.

Lemma bump_in_old t acc m k n :
  NoDup (map fst acc) -> In (t, m) acc ->
  (In (k, n) (bump t acc) <-> (In (k, n) acc /\ k <> t) \/ (k, n) = (t, S m)).
Proof.
  induction acc as [|[k' m'] acc IH]; intros Hnd Hin; [destruct Hin|].
  simpl in Hnd. inversion Hnd as [|? ? Hk Hnd']; subst.
  simpl. destruct (jstr_eqb t k') eqn:E.
  - apply jstr_eqb_true in E. subst k'.
    assert (Hm : m' = m).
    { destruct Hin as [E|Hin]; [congruence|].
      exfalso. apply Hk. apply in_map_iff. exists (t, m). auto. }
    subst m'. simpl. split.
    + intros [E|H]; [right; congruence|left; split; [right; exact H|]].
      intros ->. apply Hk. apply in_map_iff. exists (t, n). auto.
    + intros [[[E|H] Hne]|E]; [congruence|right; exact H|left; congruence].
  - assert (Hin' : In (t, m) acc).
    { destruct Hin as [E'|H]; [|exact H]. injection E' as -> _. rewrite jstr_eqb_refl in E. discriminate. }
    simpl. rewrite (IH Hnd' Hin'). split.
    + intros [E'|[[H Hne]|H]]; [left; split; [left; exact E'|]|left; split; [right; exact H|exact Hne]|right; exact H].
      injection E' as <- _. intros ->. rewrite jstr_eqb_refl in E. discriminate.
    + intros [[[E'|H] Hne]|H]; [left; exact E'|right; left; split; assumption|right; right; exact H].
Qed.

Lemma bump_fold (l : list jstr) (acc : list (jstr * nat)) (p : list jstr) :
  NoDup (map fst acc) ->
  (forall k n, In (k, n) acc <-> In k p /\ n = count_occ (list_eq_dec Z.eq_dec) p k) ->
  NoDup (map fst (fold_left (fun acc t => bump t acc) l acc)) /\
  (forall k n, In (k, n) (fold_left (fun acc t => bump t acc) l acc)
               <-> In k (p ++ l) /\ n = count_occ (list_eq_dec Z.eq_dec) (p ++ l) k).
Proof.
  revert acc p; induction l as [|t l IH]; intros acc p Hnd Hinv; simpl.
  - rewrite app_nil_r. split; assumption.
  - replace (p ++ t :: l) with ((p ++ [t]) ++ l) by (rewrite <- app_assoc; reflexivity).
    apply IH.
    + rewrite bump_keys. destruct (mem_jstr t _) eqn:E; [exact Hnd|].
      apply (Permutation_NoDup (Permutation_cons_append (map fst acc) t)). constructor; [|exact Hnd].
      intros H. apply mem_jstr_In in H. rewrite H in E. discriminate.
    + intros k n. rewrite count_occ_app, in_app_iff. simpl.
      change (@count_occ (list Z)) with (@count_occ jstr) in *.
      destruct (mem_jstr t (map fst acc)) eqn:E.
      * apply mem_jstr_In, in_map_iff in E as [[t' m] [Et Hm]]. simpl in Et. subst t'.
        assert (Hm' := Hm). apply Hinv in Hm' as [Htp Hmc].
        rewrite (bump_in_old t acc m k n Hnd Hm). split.
        -- intros [[H Hne]|H].
           ++ apply Hinv in H as [Hk Hn]. split; [left; exact Hk|].
              destruct (list_eq_dec Z.eq_dec t k); [congruence|lia].
           ++ injection H as -> ->. split; [right; left; reflexivity|].
              destruct (list_eq_dec Z.eq_dec t t); [lia|congruence].
        -- intros [Hk Hn]. destruct (list_eq_dec Z.eq_dec t k) as [<-|Hne].
           ++ right. f_equal. lia.
           ++ left. split; [|intros ->; contradiction]. apply Hinv. split; [|lia].
              destruct Hk as [Hk|[Hk|[]]]; [exact Hk|congruence].
      * assert (Ht : ~ In t (map fst acc)) by (intros H; apply mem_jstr_In in H; rewrite H in E; discriminate).
        assert (Htp : ~ In t p).
        { intros H. apply Ht, in_map_iff. exists (t, count_occ (list_eq_dec Z.eq_dec) p t).
          split; [reflexivity|]. apply Hinv. auto. }
        assert (Hc0 : @count_occ jstr (list_eq_dec Z.eq_dec) p t = 0%nat)
          by (apply (count_occ_not_In (list_eq_dec Z.eq_dec)); exact Htp).
        rewrite (bump_in_new t acc k n Ht). split.
        -- intros [H|H].
           ++ assert (Hk : k <> t) by (intros ->; apply Ht, in_map_iff; exists (t, n); auto).
              apply Hinv in H as [Hk' Hn]. split; [left; exact Hk'|].
              destruct (list_eq_dec Z.eq_dec t k); [congruence|lia].
           ++ injection H as -> ->. split; [right; left; reflexivity|].
              rewrite Hc0. destruct (list_eq_dec Z.eq_dec t t); [reflexivity|congruence].
        -- intros [Hk Hn]. destruct (list_eq_dec Z.eq_dec t k) as [<-|Hne].
           ++ right. rewrite Hc0 in Hn. f_equal. lia.
           ++ left. apply Hinv. split; [|lia].
              destruct Hk as [Hk|[Hk|[]]]; [exact Hk|congruence].
Qed.

Lemma tagCounts_spec (l : list jstr) :
  let counts := fold_left (fun acc t => bump t acc) l [] in
  NoDup (map fst counts) /\
  forall k n, In (k, n) counts <-> In k l /\ n = count_occ (list_eq_dec Z.eq_dec) l k.
Proof.
  apply (bump_fold l [] []); [constructor|]. intros k n. simpl. split; [intros []|intros [[] _]].
Qed.

Lemma filter_partition_perm {A} (f g : A -> bool) l :
  (forall x, g x = negb (f x)) -> Permutation (filter f l ++ filter g l) l.
Proof.
  intros Hg. induction l as [|x l IH]; simpl; [constructor|].
  rewrite (Hg x). destruct (f x); simpl.
  - constructor. exact IH.
  - symmetry. apply Permutation_cons_app. symmetry. exact IH.
Qed.

Lemma object_entries_perm counts : Permutation (object_entries counts) counts.
Proof.
  unfold object_entries. eapply perm_trans; [apply Permutation_app_tail, sort_by_perm|].
  apply filter_partition_perm. intros [k n]. simpl. destruct (array_index k); reflexivity.
Qed.

Lemma StronglySorted_app_rel {A} (R : A -> A -> Prop) l1 l2 :
  StronglySorted R (l1 ++ l2) -> forall x y, In x l1 -> In y l2 -> R x y.
Proof.
  induction l1 as [|a l1 IH]; simpl; intros Hs x y Hx Hy; [destruct Hx|].
  apply StronglySorted_inv in Hs as [Hs Hall]. destruct Hx as [<-|Hx].
  - rewrite Forall_forall in Hall. apply Hall, in_or_app. right. exact Hy.
  - apply IH; assumption.
Qed.

(** When no tag names a property of [Object.prototype] (the count object
    starts as [{}]: "__proto__" cannot be stored and "constructor" starts
    from the inherited function), [topFeatures] are the most frequent tags
    of the hotels given: at most five distinct tags, each carried by one of
    the hotels, and a tag left out occurs no more often than any tag
    listed, in which case five are listed. *)
Theorem insights_topFeatures h hs c :
  let ins := generateInsights h hs c in
  let allTags := flat_map (fun l => tags (deref h l)) hs in
  (forall t, In t allTags -> ~ In t object_prototype_keys) ->
  (List.length (topFeatures ins) <= 5)%nat /\ NoDup (topFeatures ins) /\
  (forall t, In t (topFeatures ins) -> In t allTags) /\
  (forall t u, In t allTags -> ~ In t (topFeatures ins) -> In u (topFeatures ins) ->
     (count_occ (list_eq_dec Z.eq_dec) allTags t <= count_occ (list_eq_dec Z.eq_dec) allTags u)%nat
     /\ List.length (topFeatures ins) = 5%nat).
Proof.
  intros ins allTags _. unfold ins, generateInsights. cbv zeta. cbn [topFeatures]. fold allTags.
  destruct (tagCounts_spec allTags) as [Hnd Hin].
  set (counts := fold_left (fun acc t => bump t acc) allTags []) in *.
  set (bf := fun a b : jstr * nat => Nat.ltb (snd b) (snd a)).
  set (sorted := sort_by bf (object_entries counts)).
  assert (Hp : Permutation sorted counts)
    by (eapply perm_trans; [apply sort_by_perm|apply object_entries_perm]).
  assert (Hasym : forall a b, bf a b = true -> bf b a = false).
  { unfold bf. intros a b H. apply Nat.ltb_lt in H. apply Nat.ltb_ge. lia. }
  assert (Hss : StronglySorted (fun a b => (snd b <= snd a)%nat) sorted).
  { apply Sorted_StronglySorted; [intros a b d H1 H2; lia|].
    pose proof (sort_by_sorted bf Hasym (object_entries counts)) as Hs0. fold sorted in Hs0.
    rewrite <- (List.map_id sorted).
    apply (Sorted_map_rel (not_after bf)); [|exact Hs0].
    unfold not_after, bf. intros a b H. apply Nat.ltb_ge in H. exact H. }
  assert (Hsub : forall e, In e (firstn 5 sorted) -> In e counts).
  { intros e He. apply (Permutation_in _ Hp). apply (In_firstn_In 5). exact He. }
  split; [rewrite length_map; apply firstn_le_length|split; [|split]].
  - rewrite <- firstn_map. apply NoDup_firstn'.
    apply (Permutation_NoDup (Permutation_map fst (Permutation_sym Hp))). exact Hnd.
  - intros t Ht. apply in_map_iff in Ht as [[k n] [Ek He]]. simpl in Ek. subst k.
    apply Hsub, Hin in He. apply He.
  - intros t u Ht Hnt Hu.
    assert (Het : In (t, count_occ (list_eq_dec Z.eq_dec) allTags t) sorted).
    { apply (Permutation_in _ (Permutation_sym Hp)). apply Hin. auto. }
    rewrite <- (firstn_skipn 5 sorted) in Het. apply in_app_or in Het as [Het|Het].
    { exfalso. apply Hnt. apply in_map_iff. eexists; split; [|exact Het]. reflexivity. }
    apply in_map_iff in Hu as [[u' m] [Eu Hum]]. simpl in Eu. subst u'.
    assert (Hm := Hsub _ Hum). apply Hin in Hm as [_ Hm].
    rewrite <- (firstn_skipn 5 sorted) in Hss.
    pose proof (StronglySorted_app_rel _ _ _ Hss _ _ Hum Het) as Hle. simpl in Hle.
    split; [lia|].
    rewrite length_map, length_firstn.
    assert (Hl : List.length (skipn 5 sorted) <> 0%nat) by (destruct (skipn 5 sorted); [destruct Het|discriminate]).
    rewrite length_skipn in Hl. lia.
Qed.

(** *** The request filters *)

Lemma fuse_search_sub env o q h docs x :
  In x (fuse_search env o q h docs) -> In (fst x) docs.
Proof.
  unfold fuse_search; intros H.
  apply (Permutation_in _ (sort_by_perm _ _)) in H.
  apply in_flat_map in H as [l [Hl Hx]].
  destruct (fuse_score env o q (deref h l)) as [s|]; [|destruct Hx].
  destruct Hx as [<-|[]]; exact Hl.
Qed.

Lemma areaFilter_sub env h c ar cands l : In l (areaFilter env h c ar cands) -> In l cands.
Proof.
  unfold areaFilter.
  destruct (fuse_search env areaFuseOptions (trim ar) h cands) as [|y ys] eqn:E.
  - destruct (geocode env (ar ++ js ", " ++ c)) as [g|]; [|auto].
    intros H; apply in_map_iff in H as [[l' d] [<- Hx]].
    apply (Permutation_in _ (sort_by_perm _ _)) in Hx.
    apply in_map_iff in Hx as [l'' [Heq Hl]]. injection Heq as <- _. exact Hl.
  - rewrite <- E; intros H; apply in_map_iff in H as [x [<- Hx]].
    apply (fuse_search_sub env _ _ _ _ _ Hx).
Qed.

Lemma priceFilter_sub h o cands l :
  In l (priceFilter h o cands) ->
  In l cands /\
  (forall mn mx, priceMin o = Some mn -> priceMax o = Some mx ->
     mn <= priceRange (deref h l) <= mx).
Proof.
  unfold priceFilter.
  destruct (priceMin o) as [mn|], (priceMax o) as [mx|]; intros H;
    try (split; [exact H| intros ? ? H1 H2; discriminate]).
  apply filter_In in H as [Hl Hb]. apply andb_prop in Hb as [B1 B2].
  apply Qle_bool_iff in B1, B2. split; [exact Hl|].
  intros mn' mx' H1 H2; injection H1 as <-; injection H2 as <-. split; assumption.
Qed.

Lemma starFilter_sub h o cands l :
  In l (starFilter h o cands) ->
  In l cands /\
  (forall s, starRatings o = Some s -> s <> [] ->
     exists z, starRating (deref h l) = Some z /\ z <> 0%Z /\ In z s).
Proof.
  unfold starFilter.
  destruct (starRatings o) as [[|z0 s]|]; intros H.
  - split; [exact H|]. intros s Hs Hne; injection Hs as <-; contradiction.
  - apply filter_In in H as [Hl Hb]. split; [exact Hl|].
    intros s' Hs' _; injection Hs' as <-.
    destruct (starRating (deref h l)) as [z|]; [|discriminate].
    apply andb_prop in Hb as [B1 B2]. apply negb_true_iff, Z.eqb_neq in B1.
    apply existsb_exists in B2 as [x [Hx Hzx]]. apply Z.eqb_eq in Hzx; subst x.
    exists z; auto.
  - split; [exact H|]. intros s Hs; discriminate.
Qed.


Lemma ratingFilter_sub h o cands l :
  In l (ratingFilter h o cands) ->
  In l cands /\
  (forall m, avgRatingMin o = Some m -> m <= averageScore (deref h l)) /\
  (forall m, avgRatingMax o = Some m -> averageScore (deref h l) <= m).
Proof.
  unfold ratingFilter.
  destruct (avgRatingMin o) as [mn|], (avgRatingMax o) as [mx|]; intros H;
    try (split; [exact H| split; intros ? ?; discriminate]);
    apply filter_In in H as [Hl Hb]; cbv zeta beta iota in Hb;
    split; try exact Hl.
  - apply andb_prop in Hb as [B1 B2]. apply negb_true_iff, Qlt_bool_false in B1, B2.
    split; intros m Hm; injection Hm as <-; assumption.
  - rewrite andb_true_r in Hb. apply negb_true_iff, Qlt_bool_false in Hb.
    split; intros m Hm; [injection Hm as <-; assumption|discriminate].
  - apply negb_true_iff, Qlt_bool_false in Hb.
    split; intros m Hm; [discriminate|injection Hm as <-; assumption].
Qed.

Lemma applyOptions_sub env h c o cands l :
  In l (applyOptions env h c (Some o) cands) ->
  In l cands /\
  (forall mn mx, priceMin o = Some mn -> priceMax o = Some mx ->
     mn <= priceRange (deref h l) <= mx) /\
  (forall s, starRatings o = Some s -> s <> [] ->
     exists z, starRating (deref h l) = Some z /\ z <> 0%Z /\ In z s) /\
  (forall m, avgRatingMin o = Some m -> m <= averageScore (deref h l)) /\
  (forall m, avgRatingMax o = Some m -> averageScore (deref h l) <= m).
Proof.
  unfold applyOptions; cbv zeta; intros H.
  assert (H3 : In l (ratingFilter h o (starFilter h o (priceFilter h o cands)))).
  { destruct (area o) as [ar|]; [|exact H].
    destruct (is_empty (trim ar)); [exact H|]. apply (areaFilter_sub env _ _ _ _ _ H). }
  apply ratingFilter_sub in H3 as [H2 [Hmin Hmax]].
  apply starFilter_sub in H2 as [H1 Hstar].
  apply priceFilter_sub in H1 as [H0 Hprice].
  auto.
Qed.

Lemma dedupByKey_spec h seen ls :
  (forall l, In l (dedupByKey h seen ls) -> In l ls /\ ~ In (city_key h l) seen) /\
  NoDup (map (city_key h) (dedupByKey h seen ls)).
Proof.
  revert seen; induction ls as [|l ls IH]; intros seen; cbn [dedupByKey].
  - split; [intros _ []|constructor].
  - change (name (deref h l) ++ js "|" ++ address (deref h l)) with (city_key h l).
    destruct (mem_jstr (city_key h l) seen) eqn:E.
    + destruct (IH seen) as [H1 H2]. split; [|exact H2].
      intros l' Hl'; destruct (H1 l' Hl'); split; [right|]; assumption.
    + destruct (IH (city_key h l :: seen)) as [H1 H2]. split.
      * intros l' [<-|Hl'].
        -- split; [left; reflexivity|]. intros Hin; apply mem_jstr_In in Hin; congruence.
        -- destruct (H1 l' Hl') as [Ha Hb]. split; [right; exact Ha|].
           intros Hin; apply Hb; right; exact Hin.
      * cbn [map]. constructor; [|exact H2].
        intros Hin; apply in_map_iff in Hin as [l' [Hk Hl']].
        destruct (H1 l' Hl') as [_ Hb]. apply Hb; left; symmetry; exact Hk.
Qed.

Lemma cityFilter_sub h all c l : In l (cityFilter h all c) -> In l all.
Proof.
  unfold cityFilter.
  destruct (negb (is_empty c) && negb (jstr_eqb c (js "all"))); [|auto]. cbv zeta.
  destruct (dedupByKey h [] _) as [|x xs] eqn:E; [auto|].
  rewrite <- E; intros H. apply (proj1 (dedupByKey_spec h [] _)) in H as [H _].
  apply in_app_or in H as [H|H]; apply filter_In in H; apply H.
Qed.

Lemma scoredObjects_from env h cands persona q o :
  In o (scoredObjects env h cands persona q) -> exists l0, In l0 cands /\ o_hotel o = deref h l0.
Proof.
  unfold scoredObjects; cbv zeta.
  destruct (scoreHits env h persona _) as [|o' os] eqn:E.
  - unfold scorePopular; intros H; apply in_map_iff in H as [l0 [<- Hl]].
    exists l0; split; [exact Hl|reflexivity].
  - rewrite <- E; unfold scoreHits; intros H.
    apply in_map_iff in H as [hit [<- Hhit]].
    exists (fst hit); split; [apply (fuse_search_sub env _ _ _ _ _ Hhit)|reflexivity].
Qed.

(** Every recommended hotel is a copy of a hotel of the initialized
    collection that meets the request's options: a price within the bounds
    when both are given, a non-zero star rating among the listed ones when
    the list is non-empty, and an averageScore within the given rating
    bounds. *)
Theorem recommendations_meet_options env st persona c prefs o :
  let st1 := initialize env st in
  let gr := generateRecommendations env st persona c prefs (Some o) in
  forall l, In l (hotels (fst gr)) ->
  exists l0, In l0 (aggregatedHotels st1) /\ deref (heap (snd gr)) l = deref (heap st1) l0 /\
    (forall mn mx, priceMin o = Some mn -> priceMax o = Some mx ->
       mn <= priceRange (deref (heap st1) l0) <= mx) /\
    (forall s, starRatings o = Some s -> s <> [] ->
       exists z, starRating (deref (heap st1) l0) = Some z /\ z <> 0%Z /\ In z s) /\
    (forall m, avgRatingMin o = Some m -> m <= averageScore (deref (heap st1) l0)) /\
    (forall m, avgRatingMax o = Some m -> averageScore (deref (heap st1) l0) <= m).
Proof.
  cbv zeta. intros l Hl.
  rewrite generateRecommendations_eq in Hl |- *. cbv zeta in Hl |- *.
  cbn [fst snd hotels heap] in Hl |- *.
  apply in_topFive, nth_alloc in Hl.
  apply scoredObjects_from in Hl as [l0 [Hl0 Heq]].
  exists l0. unfold filterCandidates in Hl0.
  apply applyOptions_sub in Hl0 as [Hc Hopts].
  split; [apply (cityFilter_sub _ _ _ _ Hc)|].
  split; [exact Heq|exact Hopts].
Qed.

(** For a city other than "" and "all" that some hotel matches (its city
    equal up to letter case, or its lower-cased address containing the
    lower-cased city), the city filter keeps a non-empty list of matching
    hotels of the collection, no two with the same name|address key. *)
Theorem cityFilter_matches h all c :
  is_empty c = false -> jstr_eqb c (js "all") = false ->
  (exists l, In l all /\
     (toLowerCase (city (deref h l)) = toLowerCase c \/
      includes (toLowerCase (address (deref h l))) (toLowerCase c) = true)) ->
  let cs := cityFilter h all c in
  cs <> [] /\ NoDup (map (city_key h) cs) /\
  forall l, In l cs -> In l all /\
    (toLowerCase (city (deref h l)) = toLowerCase c \/
     includes (toLowerCase (address (deref h l))) (toLowerCase c) = true).
Proof.
  intros H1 H2 [l0 [Hl0 Hm]]. cbv zeta. unfold cityFilter. rewrite H1, H2. cbn [negb andb].
  cbv zeta.
  set (cands := filter _ all ++ filter _ all).
  assert (Hin : In l0 cands).
  { apply in_or_app. destruct Hm as [Hm|Hm]; [left|right]; apply filter_In; split; auto.
    rewrite Hm; apply jstr_eqb_spec; reflexivity. }
  destruct (dedupByKey_spec h [] cands) as [Hsub Hnd].
  destruct (dedupByKey h [] cands) as [|x xs] eqn:E.
  - exfalso. destruct cands as [|y ys]; [destruct Hin|].
    cbn [dedupByKey mem_jstr] in E. discriminate.
  - split; [discriminate|]. split; [exact Hnd|].
    intros l Hl. destruct (Hsub l Hl) as [Hc _].
    apply in_app_or in Hc as [Hc|Hc]; apply filter_In in Hc as [Ha Hb]; split; auto.
    left; apply jstr_eqb_spec; exact Hb.
Qed.

(* ------------------------------------------------------------------ *)
(** ** Instances of the further properties *)

(** The popularity of a hotel rated 8 lies in [0, 100]. *)
Lemma popularityScore_range_witness :
  (forall x, 1 <= x -> 0 <= log env_plain x) /\
  (0 <= popularityScore env_plain
          (fst (aggregateRow env_plain 0
                  (ex_row (js "Star Inn") (js "Ring Road") (js "Delhi") 8 0 []))) <= 100)%Z.
Proof.
  split; [intros x _; apply Qle_refl|].
  apply popularityScore_range.
  - intros x _; apply Qle_refl.
  - split; vm_compute; discriminate.
  - vm_compute; discriminate.
Defined.

(** The final score of a hotel rated 8 at search score 0.5 lies in [0, 103]. *)
Lemma finalScore_range_witness :
  ~ In (js "Family") object_prototype_keys /\
  (forall x, 1 <= x -> 0 <= log env_plain x) /\
  (0 <= calculateFinalScore env_plain
          (fst (aggregateRow env_plain 0
                  (ex_row (js "Star Inn") (js "Ring Road") (js "Delhi") 8 0 [])))
          (js "Family") (1 # 2) <= 103)%Z.
Proof.
  assert (Hk : ~ In (js "Family") object_prototype_keys) by not_in_by_eval.
  split; [exact Hk|split; [intros x _; apply Qle_refl|]].
  apply finalScore_range.
  - exact Hk.
  - intros x _; apply Qle_refl.
  - split; vm_compute; discriminate.
  - vm_compute; discriminate.
  - reflexivity.
  - reflexivity.
  - split; vm_compute; discriminate.
Defined.

(** "4 Star" gives the star rating 4. *)
Lemma starRating_positive_witness :
  (List.length (filter is_digit (Raw.hotel_star_rating row_mumbai)) <= 15)%nat /\
  starRating (fst (aggregateRow env_plain 0 row_mumbai)) = Some 4%Z /\ (0 < 4 < 10 ^ 15)%Z.
Proof.
  assert (Hl : (List.length (filter is_digit (Raw.hotel_star_rating row_mumbai)) <= 15)%nat)
    by (vm_compute; lia).
  assert (H : starRating (fst (aggregateRow env_plain 0 row_mumbai)) = Some 4%Z)
    by (vm_compute; reflexivity).
  split; [exact Hl|split; [exact H|]].
  exact (proj2 (proj2 (starRating_positive env_plain 0 row_mumbai Hl) 4%Z H)).
Defined.

(** The blank summary of [row_mumbai]. *)
Lemma blank_summary_no_ratings_witness :
  trim (Raw.reviews_summary row_mumbai) = [] /\
  platformRatings (fst (aggregateRow env_plain 0 row_mumbai)) = [] /\
  totalReviews (fst (aggregateRow env_plain 0 row_mumbai)) == 0 /\
  averageScore (fst (aggregateRow env_plain 0 row_mumbai)) == 7.5.
Proof.
  assert (H : trim (Raw.reviews_summary row_mumbai) = []) by (vm_compute; reflexivity).
  split; [exact H|exact (blank_summary_no_ratings env_plain 0 row_mumbai H)].
Defined.


(** Delhi, the one city of [env_pool], has a hotel. *)
Lemma availableCities_searchable_witness :
  In (js "Delhi") (fst (getAvailableCities (initialize env_pool initial_engine))) /\
  fst (searchHotelsByCity env_pool (initialize env_pool initial_engine) (js "Delhi")) <> [].
Proof.
  assert (H : In (js "Delhi") (fst (getAvailableCities (initialize env_pool initial_engine))))
    by (vm_compute; left; reflexivity).
  split; [exact H|exact (availableCities_searchable env_pool initial_engine (js "Delhi") H)].
Defined.


(** The pool hotel of [env_pool], priced 5000, is recommended under
    [opts_price], and lies within its price bounds. *)
Lemma recommendations_meet_options_witness :
  let gr := generateRecommendations env_pool initial_engine (js "Family") (js "Delhi")
              [js "pool"] (Some opts_price) in
  let st1 := initialize env_pool initial_engine in
  In 1%nat (hotels (fst gr)) /\
  exists l0, In l0 (aggregatedHotels st1) /\ deref (heap (snd gr)) 1 = deref (heap st1) l0 /\
             1000 <= priceRange (deref (heap st1) l0) <= 6000.
Proof.
  cbv zeta.
  assert (H : In 1%nat (hotels (fst (generateRecommendations env_pool initial_engine
                 (js "Family") (js "Delhi") [js "pool"] (Some opts_price)))))
    by (vm_compute; left; reflexivity).
  split; [exact H|].
  destruct (recommendations_meet_options env_pool initial_engine (js "Family") (js "Delhi")
              [js "pool"] opts_price 1%nat H) as [l0 [Hl0 [Heq [Hp _]]]].
  exists l0. split; [exact Hl0|split; [exact Heq|apply Hp; reflexivity]].
Defined.

(** "DELHI" selects the Delhi hotel of [env_pool], whatever the letter case. *)
Lemma cityFilter_matches_witness :
  let h := heap (initialize env_pool initial_engine) in
  let all := aggregatedHotels (initialize env_pool initial_engine) in
  is_empty (js "DELHI") = false /\ jstr_eqb (js "DELHI") (js "all") = false /\
  cityFilter h all (js "DELHI") <> [] /\
  forall l, In l (cityFilter h all (js "DELHI")) ->
    toLowerCase (city (deref h l)) = toLowerCase (js "DELHI") \/
    includes (toLowerCase (address (deref h l))) (toLowerCase (js "DELHI")) = true.
Proof.
  cbv zeta.
  assert (H1 : is_empty (js "DELHI") = false) by reflexivity.
  assert (H2 : jstr_eqb (js "DELHI") (js "all") = false) by (vm_compute; reflexivity).
  assert (H3 : exists l, In l (aggregatedHotels (initialize env_pool initial_engine)) /\
     (toLowerCase (city (deref (heap (initialize env_pool initial_engine)) l)) = toLowerCase (js "DELHI") \/
      includes (toLowerCase (address (deref (heap (initialize env_pool initial_engine)) l)))
               (toLowerCase (js "DELHI")) = true)).
  { exists 0%nat. split; [vm_compute; left; reflexivity|left; vm_compute; reflexivity]. }
  destruct (cityFilter_matches _ _ _ H1 H2 H3) as [Hne [_ Hall]].
  split; [exact H1|split; [exact H2|split; [exact Hne|]]].
  intros l Hl; apply (Hall l Hl).
Defined.

(** The Delhi pool hotel, for the persona "Family", has a bonus in [0, 0.1]. *)
Lemma personaBonus_exact_witness :
  ~ In (js "Family") object_prototype_keys /\
  0 <= getPersonaBonus (fst (aggregateRow env_pool 0
                          (ex_row (js "Lotus Inn") (js "Connaught Place, New Delhi") (js "Delhi")
                                  8 5000 (js "Pool|WiFi")))) (js "Family") <= 0.1.
Proof.
  assert (Hk : ~ In (js "Family") object_prototype_keys) by not_in_by_eval.
  split; [exact Hk|].
  exact (proj1 (proj2 (personaBonus_exact _ _ Hk))).
Defined.

(** The insights over the hotels of [env_pool] list at most five features. *)
Lemma insights_topFeatures_witness :
  (forall t, In t (flat_map (fun l => tags (deref (heap (initialize env_pool initial_engine)) l))
                            (aggregatedHotels (initialize env_pool initial_engine))) ->
             ~ In t object_prototype_keys) /\
  (List.length (topFeatures (generateInsights (heap (initialize env_pool initial_engine))
                               (aggregatedHotels (initialize env_pool initial_engine)) (js "Delhi")))
   <= 5)%nat.
Proof.
  assert (Hk : forall t, In t (flat_map (fun l => tags (deref (heap (initialize env_pool initial_engine)) l))
                                  (aggregatedHotels (initialize env_pool initial_engine))) ->
                         ~ In t object_prototype_keys).
  { intros t Ht. vm_compute in Ht.
    repeat (destruct Ht as [Ht|Ht]; [subst t; not_in_by_eval|]); destruct Ht. }
  split; [exact Hk|].
  exact (proj1 (insights_topFeatures _ _ _ Hk)).
Defined.
